(** * Numerical kernels of python-numerical-methods: legendre, square_root,
      time_steppers

    A shallow embedding of [src/legendre.py], [src/square_root.py] and
    [src/time_steppers.py].

    Number model.  Python's [int] is [Z].  Python's [float] (and the float64
    entries of numpy arrays) are idealised as exact rationals [Q]: every
    arithmetic operation of the source is kept, in the order in which Python
    evaluates it, but it does not round.  Statements that only say which
    expression ends up in which array cell use Leibniz equality [=] on [Q];
    statements that need arithmetic use the rational equality [==].

    Exceptions.  A Python call either returns or raises; it is modelled by
    the type [result].  An unbounded [while] loop takes a bound on the number
    of executions of its body and answers [None] when the bound is used up
    while the loop condition still holds. *)

From Stdlib Require Import ZArith QArith Qabs Qpower Qround Qfield Lia Lqa.
From stdpp Require Import base option list list_numbers strings pretty.

Local Open Scope Z_scope.

(** ** Exceptions and the error monad *)

(** The Python exceptions that the modelled code can raise. *)
Inductive exn : Type :=
  | ValueError          (* numpy: negative dimension or sample count;
                           math.comb: negative argument *)
  | IndexError          (* index out of bounds for an axis *)
  | ZeroDivisionError.  (* Python scalar division by zero *)

Inductive result (A : Type) : Type :=
  | Ok (a : A)
  | Raise (e : exn).
Arguments Ok {A} a.
Arguments Raise {A} e.

#[global] Instance result_ret : MRet result := fun A a => Ok a.
#[global] Instance result_bind : MBind result := fun A B k m =>
  match m with
  | Ok a => k a
  | Raise e => Raise e
  end.

(** The error kind [InvalidArgument] of the specification: among Python's
    exceptions, [ValueError] is the one for an argument of the right type
    with an unacceptable value.  [IndexError] reports a failed array access
    and [ZeroDivisionError] is the kind [DivisionByZero]. *)
Definition is_invalid_argument (e : exn) : bool :=
  match e with
  | ValueError => true
  | _ => false
  end.

(** ** Python and numpy primitives used by the three modules *)

(** [range(lo, hi)] *)
Definition py_range (lo hi : Z) : list Z := seqZ lo (hi - lo).

(** [for n in l: s = body(n, s)], where the body may raise. *)
Fixpoint for_each {S A : Type} (l : list A) (body : A → S → result S) (s : S)
    : result S :=
  match l with
  | [] => Ok s
  | n :: l' => s' ← body n s; for_each l' body s'
  end.

(** Resolution of an integer index against an axis of size [len]: numpy
    (like Python) counts negative indices from the end and raises
    [IndexError] outside [-len, len). *)
Definition norm_index (len : nat) (i : Z) : result nat :=
  if (0 <=? i) && (i <? Z.of_nat len) then Ok (Z.to_nat i)
  else if (- Z.of_nat len <=? i) && (i <? 0) then Ok (Z.to_nat (i + Z.of_nat len))
  else Raise IndexError.

(** [a[i]] *)
Definition getitem {A : Type} (a : list A) (i : Z) : result A :=
  k ← norm_index (length a) i;
  match a !! k with
  | Some v => Ok v
  | None => Raise IndexError
  end.

(** [a[i] = v] *)
Definition setitem {A : Type} (a : list A) (i : Z) (v : A) : result (list A) :=
  k ← norm_index (length a) i;
  Ok (<[k := v]> a).

(** [np.zeros(n)] *)
Definition np_zeros (n : Z) : result (list Q) :=
  if n <? 0 then Raise ValueError else Ok (replicate (Z.to_nat n) 0%Q).

(** [np.zeros((r, c))]: a 2-D array is the list of its rows. *)
Definition np_zeros2 (r c : Z) : result (list (list Q)) :=
  if (r <? 0) || (c <? 0) then Raise ValueError
  else Ok (replicate (Z.to_nat r) (replicate (Z.to_nat c) 0%Q)).

(** Python's true division [a / b] on scalars. *)
Definition py_div (a b : Q) : result Q :=
  if Qeq_bool b 0 then Raise ZeroDivisionError else Ok (a / b)%Q.

(** [np.linspace(start, stop, num)] with the default [endpoint=True], as
    numpy computes it: [arange(0, num) * step + start] with
    [step = (stop - start) / (num - 1)], the last sample then overwritten by
    [stop]; when the step is zero numpy divides before multiplying, and with
    fewer than two samples there is no step. *)
Definition np_linspace (start stop : Q) (num : Z) : result (list Q) :=
  if num <? 0 then Raise ValueError
  else
    let div := num - 1 in
    let delta := (stop - start)%Q in
    let y := inject_Z <$> seqZ 0 num in
    let y :=
      if 0 <? div then
        let step := (delta / inject_Z div)%Q in
        if Qeq_bool step 0
        then (λ v, v / inject_Z div * delta)%Q <$> y
        else (λ v, v * step)%Q <$> y
      else (λ v, v * delta)%Q <$> y in
    let y := (λ v, v + start)%Q <$> y in
    Ok (if 1 <? num then <[Z.to_nat (num - 1) := stop]> y else y).

(** ** legendre.py *)

(** The right-hand side of the assignment in the loop of [compute_legendre]:
    [((2*n - 1) * x * legendre[n-1, :] - (n - 1) * legendre[n-2, :]) / n],
    elementwise. *)
Definition legendre_row (n : Z) (x r1 r2 : list Q) : list Q :=
  (λ v, v / inject_Z n)%Q <$>
    zip_with Qminus
      (zip_with Qmult (Qmult (inject_Z (2 * n - 1)) <$> x) r1)
      (Qmult (inject_Z (n - 1)) <$> r2).

Definition compute_legendre (x : list Q) (p : Z) : result (list (list Q)) :=
  let n_points := length x in
  legendre ← np_zeros2 (p + 1) (Z.of_nat n_points);
  legendre ← setitem legendre 0 (replicate n_points 1%Q);
  legendre ← (if 1 <=? p then setitem legendre 1 x else Ok legendre);
  legendre ← for_each (py_range 2 (p + 1)) (λ n legendre,
    r1 ← getitem legendre (n - 1);
    r2 ← getitem legendre (n - 2);
    setitem legendre n (legendre_row n x r1 r2)) legendre;
  Ok legendre.

(** [legendre[n, i]] of a returned table. *)
Definition cell (tbl : list (list Q)) (n : Z) (i : nat) : option Q :=
  row ← tbl !! Z.to_nat n; row !! i.

(** Row [j] holds the recurrence applied to rows [j - 1] and [j - 2]. *)
Definition row_recurrence (x : list Q) (tbl : list (list Q)) (j : Z) : Prop :=
  ∃ r1 r2,
    tbl !! Z.to_nat (j - 1) = Some r1 ∧
    tbl !! Z.to_nat (j - 2) = Some r2 ∧
    tbl !! Z.to_nat j = Some (legendre_row j x r1 r2).

(** The state of the table when the loop is about to compute row [n]. *)
Definition legendre_inv (x : list Q) (p : Z) (n : Z) (tbl : list (list Q)) : Prop :=
  length tbl = Z.to_nat (p + 1) ∧
  Forall (λ row, length row = length x) tbl ∧
  tbl !! 0%nat = Some (replicate (length x) 1%Q) ∧
  (1 ≤ p → tbl !! 1%nat = Some x) ∧
  (∀ j, 2 ≤ j < n → row_recurrence x tbl j).

(** The sample vector of the [__main__] block, [np.linspace(-1, 1, 5)]. *)
Definition lin5 : list Q := [-1; -1 # 2; 0; 1 # 2; 1]%Q.

(** ** square_root.py *)

(** Pascal's triangle: the binomial coefficient C(n, k). *)
Fixpoint binom (n k : nat) : Z :=
  match n, k with
  | _, O => 1
  | O, S _ => 0
  | S n', S k' => binom n' k' + binom n' (S k')
  end.

(** [math.comb(n, k)]: the binomial coefficient of two non-negative integers;
    a negative argument raises [ValueError]. *)
Definition math_comb (n k : Z) : result Z :=
  if (n <? 0) || (k <? 0) then Raise ValueError
  else Ok (binom (Z.to_nat n) (Z.to_nat k)).

Definition taylor_term (k : Z) (delta_x x_n : Q) : result Q :=
  if k =? 0 then Ok 1%Q
  else
    coeff ← py_div (inject_Z (-1) ^ k)%Q (inject_Z (1 - 2 * k) * inject_Z 4 ^ k)%Q;
    binomial ← math_comb (2 * k) k;
    u ← py_div delta_x (x_n ^ 2)%Q;
    Ok (coeff * inject_Z binomial * u ^ k)%Q.

(** The value of [taylor_sum],
    [sum(taylor_term(k, delta_x, x_new) for k in range(N + 1))]: Python's
    [sum] starts from 0 and adds the terms from left to right; a term that
    raises ends the sum. *)
Definition sum_taylor_terms (N : Z) (delta_x x_new : Q) : result Q :=
  for_each (py_range 0 (N + 1))
    (λ k acc, t ← taylor_term k delta_x x_new; Ok (acc + t)%Q) 0%Q.

(** The loop condition [abs(x_new**2 - a) > eps]. *)
Definition tolerance_unmet (a eps x_new : Q) : bool :=
  negb (Qle_bool (Qabs (x_new ^ 2 - a)) eps).

(** The [while] loop of [approx_square_root], entered with the current
    [x_new] and [iteration_count].  [fuel] bounds the number of times the
    body runs; [None] says that the body ran [fuel] times and the loop
    condition still holds. *)
Fixpoint sqrt_loop (fuel : nat) (a : Q) (N : Z) (eps x_new : Q)
    (iteration_count : Z) : option (result (Q * Z)) :=
  if tolerance_unmet a eps x_new then
    match fuel with
    | O => None
    | S fuel' =>
        let delta_x := (a - x_new ^ 2)%Q in
        match sum_taylor_terms N delta_x x_new with
        | Raise e => Some (Raise e)
        | Ok taylor_sum =>
            sqrt_loop fuel' a N eps (x_new * taylor_sum)%Q (iteration_count + 1)
        end
    end
  else Some (Ok (x_new, iteration_count)).

Definition approx_square_root (fuel : nat) (a : Q) (N : Z) (x0 eps : Q)
    : option (result (Q * Z)) :=
  sqrt_loop fuel a N eps x0 0.

(** [sqrt_reaches a N eps x it x' it']: the loop, testing its condition with
    estimate [x] and count [it], comes to test it with estimate [x'] and
    count [it'] after some passes of its body (possibly none), none of which
    raises. *)
Inductive sqrt_reaches (a : Q) (N : Z) (eps : Q) : Q → Z → Q → Z → Prop :=
  | sqrt_reaches_here (x : Q) (it : Z) : sqrt_reaches a N eps x it x it
  | sqrt_reaches_pass (x : Q) (it : Z) (s x' : Q) (it' : Z) :
      tolerance_unmet a eps x = true →
      sum_taylor_terms N (a - x ^ 2)%Q x = Ok s →
      sqrt_reaches a N eps (x * s)%Q (it + 1) x' it' →
      sqrt_reaches a N eps x it x' it'.

(** ** time_steppers.py *)

(** The derivative function [f(t, y)] is a pure total function, as the
    specification has it. *)
Definition perform_time_stepping1 (T : Q) (N : Z) (y0 y1 : Q) (f : Q → Q → Q)
    : result (list Q * list Q) :=
  t_vals ← np_linspace 0 T (N + 1);
  y_vals ← np_zeros (N + 1);
  h ← py_div T (inject_Z N);
  y_vals ← setitem y_vals 0 y0;
  y_vals ← setitem y_vals 1 y1;
  y_vals ← for_each (py_range 1 N) (λ n y_vals,
    y_n ← getitem y_vals n;
    t_n ← getitem t_vals n;
    y_n' ← getitem y_vals n;
    setitem y_vals (n + 1) (y_n + h * f t_n y_n')%Q) y_vals;
  Ok (t_vals, y_vals).

(** The body of the loop of [perform_time_stepping2]: the value stored in
    [y_vals[n + 1]]. *)
Definition rk4_update (h : Q) (f : Q → Q → Q) (t_n y_n : Q) : Q :=
  let k1 := (h * f t_n y_n)%Q in
  let k2 := (h * f (t_n + h / 2) (y_n + k1 / 2))%Q in
  let k3 := (h * f (t_n + h / 2) (y_n + k2 / 2))%Q in
  let k4 := (h * f (t_n + h) (y_n + k3))%Q in
  (y_n + (k1 + 2 * k2 + 2 * k3 + k4) / 6)%Q.

Definition perform_time_stepping2 (T : Q) (N : Z) (M : Z) (y0 : Q) (f : Q → Q → Q)
    : result (list Q * list Q) :=
  t_vals ← np_linspace 0 T (N + 1);
  y_vals ← np_zeros (N + 1);
  h ← py_div T (inject_Z N);
  y_vals ← setitem y_vals 0 y0;
  y_vals ← for_each (py_range 0 N) (λ n y_vals,
    t_n ← getitem t_vals n;
    y_n ← getitem y_vals n;
    setitem y_vals (n + 1) (rk4_update h f t_n y_n)) y_vals;
  Ok (t_vals, y_vals).

(** The Euler update of index [n] has been applied to [y_vals]. *)
Definition euler_step_done (T : Q) (N : Z) (f : Q → Q → Q) (t_vals y_vals : list Q)
    (n : Z) : Prop :=
  ∃ t_n y_n,
    t_vals !! Z.to_nat n = Some t_n ∧
    y_vals !! Z.to_nat n = Some y_n ∧
    y_vals !! Z.to_nat (n + 1) = Some (y_n + T / inject_Z N * f t_n y_n)%Q.

(** The state of [y_vals] when the loop of [perform_time_stepping1] is about
    to run its body for [n]. *)
Definition euler_inv (T : Q) (N : Z) (y1 : Q) (f : Q → Q → Q) (t_vals : list Q)
    (y0 : Q) (n : Z) (y_vals : list Q) : Prop :=
  length y_vals = Z.to_nat (N + 1) ∧
  y_vals !! 0%nat = Some y0 ∧
  y_vals !! 1%nat = Some y1 ∧
  (∀ j, 1 ≤ j < n → euler_step_done T N f t_vals y_vals j).

(** The Runge-Kutta update of step [n] has been applied to [y_vals]. *)
Definition rk4_step_done (T : Q) (N : Z) (f : Q → Q → Q) (t_vals y_vals : list Q)
    (n : Z) : Prop :=
  ∃ t_n y_n,
    t_vals !! Z.to_nat n = Some t_n ∧
    y_vals !! Z.to_nat n = Some y_n ∧
    y_vals !! Z.to_nat (n + 1) = Some (rk4_update (T / inject_Z N) f t_n y_n).

(** The state of [y_vals] when the loop of [perform_time_stepping2] is about
    to run its body for [n]. *)
Definition rk4_inv (T : Q) (N : Z) (y0 : Q) (f : Q → Q → Q) (t_vals : list Q)
    (n : Z) (y_vals : list Q) : Prop :=
  length y_vals = Z.to_nat (N + 1) ∧
  y_vals !! 0%nat = Some y0 ∧
  (∀ j, 0 ≤ j < n → rk4_step_done T N f t_vals y_vals j).

(** The right-hand side [f(t, y) = y] of the growth equation [y' = y]. *)
Definition growth (t y : Q) : Q := y.

(** ** Reference functions for the further properties *)

(** The three-term recurrence of [compute_legendre] on one sample:
    [legendre_pair n x] is the pair of the values of degree [n] and [n + 1],
    computed with the operations of the loop body in the same order. *)
Fixpoint legendre_pair (n : nat) (x : Q) : Q * Q :=
  match n with
  | O => (1%Q, x)
  | S m =>
      let '(a, b) := legendre_pair m x in
      let d := Z.of_nat (S (S m)) in
      (b, ((inject_Z (2 * d - 1) * x * b - inject_Z (d - 1) * a) / inject_Z d)%Q)
  end.

Definition legendre_value (n : nat) (x : Q) : Q := fst (legendre_pair n x).

(** The outcome of a call with the returned estimate negated; a call that
    raises or does not finish is left as it is. *)
Definition negate_estimate (r : option (result (Q * Z))) : option (result (Q * Z)) :=
  match r with
  | Some (Ok (x, it)) => Some (Ok ((- x)%Q, it))
  | _ => r
  end.

(** The right-hand side [f(t, y) = lam * y] of the linear test equation. *)
Definition linear_rhs (lam : Q) (t y : Q) : Q := (lam * y)%Q.

(** The degree-4 Taylor polynomial of the exponential. *)
Definition rk4_growth_factor (z : Q) : Q :=
  (1 + z + z * z / 2 + z * z * z / 6 + z * z * z * z / 24)%Q.

(** ** legendre.py: plotting *)

(** The calls that [plot_legendre] makes on [matplotlib.pyplot], in the
    order in which it makes them; the figure it returns is the one these
    calls draw on. *)
Inductive plt_call : Type :=
  | plt_figure
  | plt_plot (x y : list Q) (label : string)
  | plt_title (s : string)
  | plt_xlabel (s : string)
  | plt_ylabel (s : string)
  | plt_legend
  | plt_grid.

(** The label [f'L{n}(x)'] of a curve and the title of the figure. *)
Definition curve_label (n : Z) : string := "L" +:+ pretty n +:+ "(x)".
Definition figure_title (p : Z) : string :=
  "Legendre Polynomials up to Degree " +:+ pretty p.

(** The loop [for n in range(p + 1): plt.plot(x, legendre[n, :], ...)],
    started with the calls made before it; a pass that raises leaves the
    calls made so far. *)
Fixpoint plot_rows (x : list Q) (legendre : list (list Q)) (l : list Z)
    (calls : list plt_call) : list plt_call * result unit :=
  match l with
  | [] => (calls, Ok ())
  | n :: l' =>
      match getitem legendre n with
      | Raise e => (calls, Raise e)
      | Ok row => plot_rows x legendre l' (calls ++ [plt_plot x row (curve_label n)])
      end
  end.

(** [plot_legendre(p)]: the calls made on [plt], and then either the
    returned figure ([Ok ()]) or the exception raised. *)
Definition plot_legendre (p : Z) : list plt_call * result unit :=
  let calls := [plt_figure] in
  match np_linspace (-1) 1 500 with
  | Raise e => (calls, Raise e)
  | Ok x =>
      match compute_legendre x p with
      | Raise e => (calls, Raise e)
      | Ok legendre =>
          match plot_rows x legendre (py_range 0 (p + 1)) calls with
          | (calls, Raise e) => (calls, Raise e)
          | (calls, Ok _) =>
              (calls ++ [plt_title (figure_title p); plt_xlabel "x";
                         plt_ylabel "L(x)"; plt_legend; plt_grid],
               Ok ())
          end
      end
  end.

(** * Properties *)

(** ** The primitives *)

Lemma bind_Ok {A B : Type} (a : A) (k : A → result B) : (Ok a ≫= k) = k a.
Proof. reflexivity. Qed.

Lemma norm_index_in_range (len : nat) (i : Z) :
  0 ≤ i < Z.of_nat len → norm_index len i = Ok (Z.to_nat i).
Proof.
  intros [Hlo Hhi]. unfold norm_index.
  apply Z.leb_le in Hlo. apply Z.ltb_lt in Hhi.
  by rewrite Hlo, Hhi.
Qed.

Lemma getitem_Some {A : Type} (a : list A) (i : Z) (v : A) :
  0 ≤ i → a !! Z.to_nat i = Some v → getitem a i = Ok v.
Proof.
  intros Hi Hv. unfold getitem.
  rewrite norm_index_in_range.
  - rewrite bind_Ok. by rewrite Hv.
  - apply lookup_lt_Some in Hv. lia.
Qed.

Lemma setitem_in_range {A : Type} (a : list A) (i : Z) (v : A) :
  0 ≤ i < Z.of_nat (length a) → setitem a i v = Ok (<[Z.to_nat i := v]> a).
Proof. intros Hi. unfold setitem. by rewrite norm_index_in_range. Qed.

Lemma np_zeros_Ok (n : Z) :
  0 ≤ n → np_zeros n = Ok (replicate (Z.to_nat n) 0%Q).
Proof.
  intros Hn. unfold np_zeros.
  by replace (n <? 0) with false by (symmetry; apply Z.ltb_ge; lia).
Qed.

Lemma py_range_empty (lo hi : Z) : hi ≤ lo → py_range lo hi = [].
Proof. intros H. unfold py_range. apply seqZ_nil. lia. Qed.

Lemma py_range_cons (lo hi : Z) :
  lo < hi → py_range lo hi = lo :: py_range (lo + 1) hi.
Proof.
  intros H. unfold py_range. rewrite seqZ_cons by lia.
  f_equal. f_equal; lia.
Qed.

(** Loop invariants: an invariant [I n s] that holds on entry and that each
    pass of the body carries from [n] to [n + 1] holds at the end of the
    range, and the loop does not raise. *)
Lemma for_each_range_inv {S : Type} (I : Z → S → Prop)
    (body : Z → S → result S) (lo hi : Z) (s : S) :
  I lo s →
  (∀ n s, lo ≤ n < hi → I n s → ∃ s', body n s = Ok s' ∧ I (n + 1) s') →
  ∃ s', for_each (py_range lo hi) body s = Ok s' ∧ I (Z.max lo hi) s'.
Proof.
  remember (Z.to_nat (hi - lo)) as k eqn:Hk.
  revert lo s Hk. induction k as [|k IH]; intros lo s Hk Hentry Hbody.
  - rewrite py_range_empty by lia. exists s. split; [done|].
    by replace (Z.max lo hi) with lo by lia.
  - rewrite py_range_cons by lia. simpl.
    destruct (Hbody lo s) as (s1 & Hrun & Hs1); [lia|done|].
    rewrite Hrun, bind_Ok.
    destruct (IH (lo + 1) s1) as (s2 & Hrest & Hs2); [lia|done| |].
    + intros n s' Hn. apply Hbody. lia.
    + exists s2. split; [done|].
      by replace (Z.max lo hi) with (Z.max (lo + 1) hi) by lia.
Qed.

(** ** legendre.py *)

Section legendre.
Variables (x : list Q) (p : Z).

Local Abbreviation row_recurrence := (row_recurrence x).
Local Abbreviation legendre_inv := (legendre_inv x p).

Lemma length_legendre_row (n : Z) (r1 r2 : list Q) :
  length r1 = length x → length r2 = length x →
  length (legendre_row n x r1 r2) = length x.
Proof.
  intros H1 H2. unfold legendre_row.
  rewrite length_fmap, !length_zip_with, !length_fmap. lia.
Qed.

Lemma lookup_legendre_row (n : Z) (r1 r2 : list Q) (i : nat) (xi a b : Q) :
  x !! i = Some xi → r1 !! i = Some a → r2 !! i = Some b →
  legendre_row n x r1 r2 !! i =
    Some ((inject_Z (2 * n - 1) * xi * a - inject_Z (n - 1) * b) / inject_Z n)%Q.
Proof.
  intros Hx H1 H2. unfold legendre_row.
  rewrite list_lookup_fmap, !lookup_zip_with, !list_lookup_fmap.
  by rewrite Hx, H1, H2.
Qed.

Lemma row_recurrence_insert (tbl : list (list Q)) (n j : Z) (row : list Q) :
  2 ≤ j < n → row_recurrence tbl j →
  row_recurrence (<[Z.to_nat n := row]> tbl) j.
Proof.
  intros Hj (r1 & r2 & H1 & H2 & H3). exists r1, r2.
  rewrite !list_lookup_insert_ne by lia. done.
Qed.

Lemma legendre_body_inv (n : Z) (tbl : list (list Q)) :
  2 ≤ n < p + 1 → legendre_inv n tbl →
  ∃ tbl',
    (r1 ← getitem tbl (n - 1);
     r2 ← getitem tbl (n - 2);
     setitem tbl n (legendre_row n x r1 r2)) = Ok tbl' ∧
    legendre_inv (n + 1) tbl'.
Proof.
  intros Hn (Hlen & Hrows & Hrow0 & Hrow1 & Hrec).
  destruct (lookup_lt_is_Some_2 tbl (Z.to_nat (n - 1))) as [r1 Hr1]; [lia|].
  destruct (lookup_lt_is_Some_2 tbl (Z.to_nat (n - 2))) as [r2 Hr2]; [lia|].
  exists (<[Z.to_nat n := legendre_row n x r1 r2]> tbl). split.
  - rewrite (getitem_Some tbl (n - 1) r1), bind_Ok by first [lia | done].
    rewrite (getitem_Some tbl (n - 2) r2), bind_Ok by first [lia | done].
    apply setitem_in_range. lia.
  - split_and!.
    + by rewrite length_insert.
    + apply Forall_insert; [done|].
      apply length_legendre_row.
      * by eapply (Forall_lookup_1 _ _ _ _ Hrows).
      * by eapply (Forall_lookup_1 _ _ _ _ Hrows).
    + rewrite list_lookup_insert_ne by lia. done.
    + intros Hp. rewrite list_lookup_insert_ne by lia. auto.
    + intros j Hj. destruct (decide (j = n)) as [->|Hne].
      * exists r1, r2. rewrite !list_lookup_insert_ne by lia.
        rewrite list_lookup_insert_eq by lia. done.
      * apply row_recurrence_insert; [lia|]. apply Hrec. lia.
Qed.

(** What [compute_legendre] returns for a non-negative degree. *)
Lemma compute_legendre_spec :
  0 ≤ p →
  ∃ tbl, compute_legendre x p = Ok tbl ∧ legendre_inv (p + 1) tbl.
Proof.
  intros Hp. unfold compute_legendre, np_zeros2.
  replace ((p + 1 <? 0) || (Z.of_nat (length x) <? 0)) with false
    by (symmetry; apply orb_false_intro; apply Z.ltb_ge; lia).
  rewrite bind_Ok, Nat2Z.id.
  rewrite setitem_in_range, bind_Ok by (rewrite length_replicate; lia).
  set (tbl0 := <[Z.to_nat 0 := replicate (length x) 1%Q]>
                 (replicate (Z.to_nat (p + 1)) (replicate (length x) 0%Q))).
  assert (Hlen0 : length tbl0 = Z.to_nat (p + 1)).
  { unfold tbl0. by rewrite length_insert, length_replicate. }
  assert (Hrows0 : Forall (λ row, length row = length x) tbl0).
  { unfold tbl0. apply Forall_insert.
    - apply Forall_replicate. by rewrite length_replicate.
    - by rewrite length_replicate. }
  assert (Hzero : tbl0 !! 0%nat = Some (replicate (length x) 1%Q)).
  { unfold tbl0. apply list_lookup_insert_eq. rewrite length_replicate. lia. }
  assert (∃ tbl1,
    (if 1 <=? p then setitem tbl0 1 x else Ok tbl0) = Ok tbl1 ∧
    legendre_inv 2 tbl1) as (tbl1 & -> & Hinv).
  { destruct (Z.leb_spec 1 p) as [H1|H1].
    - exists (<[Z.to_nat 1 := x]> tbl0). split; [apply setitem_in_range; lia|].
      split_and!.
      + by rewrite length_insert.
      + by apply Forall_insert.
      + by rewrite list_lookup_insert_ne by lia.
      + intros _. apply list_lookup_insert_eq. lia.
      + intros j Hj. lia.
    - exists tbl0. split; [done|]. split_and!; try done; intros; lia. }
  rewrite bind_Ok.
  destruct (for_each_range_inv legendre_inv
    (λ n legendre, r1 ← getitem legendre (n - 1);
                   r2 ← getitem legendre (n - 2);
                   setitem legendre n (legendre_row n x r1 r2))
    2 (p + 1) tbl1 Hinv) as (tbl & -> & Hfinal).
  { intros n s Hn Hs. by apply legendre_body_inv. }
  exists tbl. split; [done|].
  destruct Hfinal as (H1 & H2 & H3 & H4 & H5).
  split_and!; try done. intros j Hj. apply H5. lia.
Qed.
End legendre.

(** ** time_steppers.py *)

Lemma py_div_nonzero (a b : Q) : ¬ (b == 0)%Q → py_div a b = Ok (a / b)%Q.
Proof.
  intros Hb. unfold py_div.
  destruct (Qeq_bool b 0) eqn:E; [|done].
  apply Qeq_bool_iff in E. contradiction.
Qed.

Lemma py_div_zero (a b : Q) : (b == 0)%Q → py_div a b = Raise ZeroDivisionError.
Proof.
  intros Hb. unfold py_div.
  apply Qeq_bool_iff in Hb. by rewrite Hb.
Qed.

Lemma inject_Z_nonzero (n : Z) : n ≠ 0 → ¬ (inject_Z n == 0)%Q.
Proof. intros Hn H. apply Hn. unfold Qeq in H. simpl in H. lia. Qed.

(** The grid of [N + 1] samples over [0, T]: sample [n] is [n * T / N]. *)
Lemma np_linspace_grid (T : Q) (N : Z) :
  1 ≤ N →
  ∃ t, np_linspace 0 T (N + 1) = Ok t ∧
       length t = Z.to_nat (N + 1) ∧
       ∀ n, 0 ≤ n ≤ N →
         ∃ t_n, t !! Z.to_nat n = Some t_n ∧ (t_n == inject_Z n * T / inject_Z N)%Q.
Proof.
  intros HN. unfold np_linspace.
  replace (N + 1 <? 0) with false by (symmetry; apply Z.ltb_ge; lia).
  replace (N + 1 - 1) with N by lia.
  replace (0 <? N) with true by (symmetry; apply Z.ltb_lt; lia).
  replace (1 <? N + 1) with true by (symmetry; apply Z.ltb_lt; lia).
  assert (HNq : ¬ (inject_Z N == 0)%Q) by (apply inject_Z_nonzero; lia).
  eexists. split; [reflexivity|]. split.
  - rewrite length_insert.
    destruct (Qeq_bool _ _); by rewrite !length_fmap, length_seqZ.
  - intros n Hn. destruct (decide (n = N)) as [->|Hne].
    + exists T. split.
      * apply list_lookup_insert_eq.
        destruct (Qeq_bool _ _); rewrite !length_fmap, length_seqZ; lia.
      * field. done.
    + rewrite list_lookup_insert_ne by lia.
      destruct (Qeq_bool _ _); rewrite !list_lookup_fmap, lookup_seqZ_lt by lia;
        simpl; eexists; (split; [reflexivity|]);
        rewrite Z2Nat.id, Z.add_0_l by lia; field; done.
Qed.

Section euler.
Variables (T : Q) (N : Z) (y1 : Q) (f : Q → Q → Q) (t_vals : list Q).

Local Abbreviation euler_step_done := (euler_step_done T N f t_vals).
Local Abbreviation euler_inv := (euler_inv T N y1 f t_vals).

Hypothesis N_pos : 1 ≤ N.
Hypothesis t_vals_length : length t_vals = Z.to_nat (N + 1).

Lemma euler_body_inv (y0 : Q) (n : Z) (y_vals : list Q) :
  1 ≤ n < N → euler_inv y0 n y_vals →
  ∃ y_vals',
    (y_n ← getitem y_vals n;
     t_n ← getitem t_vals n;
     y_n' ← getitem y_vals n;
     setitem y_vals (n + 1) (y_n + T / inject_Z N * f t_n y_n')%Q) = Ok y_vals' ∧
    euler_inv y0 (n + 1) y_vals'.
Proof.
  intros Hn (Hlen & Hy0 & Hy1 & Hdone).
  destruct (lookup_lt_is_Some_2 y_vals (Z.to_nat n)) as [y_n Hy_n]; [lia|].
  destruct (lookup_lt_is_Some_2 t_vals (Z.to_nat n)) as [t_n Ht_n]; [lia|].
  exists (<[Z.to_nat (n + 1) := (y_n + T / inject_Z N * f t_n y_n)%Q]> y_vals).
  split.
  - rewrite (getitem_Some y_vals n y_n), bind_Ok by first [lia | done].
    rewrite (getitem_Some t_vals n t_n), !bind_Ok by first [lia | done].
    apply setitem_in_range. lia.
  - split_and!.
    + by rewrite length_insert.
    + by rewrite list_lookup_insert_ne by lia.
    + by rewrite list_lookup_insert_ne by lia.
    + intros j Hj. destruct (decide (j = n)) as [->|Hne].
      * exists t_n, y_n. split_and!; [done| |].
        -- by rewrite list_lookup_insert_ne by lia.
        -- apply list_lookup_insert_eq. lia.
      * destruct (Hdone j) as (t_j & y_j & H1 & H2 & H3); [lia|].
        exists t_j, y_j. rewrite !list_lookup_insert_ne by lia. done.
Qed.

(** Two arrays that share the seed at index 1 and on which every Euler
    update has been applied agree from index 1 on. *)
Lemma euler_trajectory_unique (y0 y0' : Q) (y y' : list Q) (n : nat) :
  euler_inv y0 N y → euler_inv y0' N y' →
  (1 ≤ n)%nat → Z.of_nat n ≤ N → y !! n = y' !! n.
Proof.
  clear N_pos t_vals_length.
  intros (_ & _ & Hy1 & Hdone) (_ & _ & Hy1' & Hdone') Hn.
  induction Hn as [|n Hn IH]; intros HnN.
  - by rewrite Hy1, Hy1'.
  - destruct (Hdone (Z.of_nat n)) as (t_n & y_n & Ht & Hy & Hnext); [lia|].
    destruct (Hdone' (Z.of_nat n)) as (t_n' & y_n' & Ht' & Hy' & Hnext'); [lia|].
    rewrite Nat2Z.id in Ht, Ht', Hy, Hy'.
    replace (Z.to_nat (Z.of_nat n + 1)) with (S n) in Hnext, Hnext' by lia.
    rewrite Hnext, Hnext'.
    assert (y_n = y_n') as <-.
    { specialize (IH ltac:(lia)). rewrite Hy, Hy' in IH. by injection IH. }
    assert (t_n = t_n') as <- by congruence.
    done.
Qed.
End euler.

(** What [perform_time_stepping1] returns when there is at least one step. *)
Lemma perform_time_stepping1_spec (T : Q) (N : Z) (y0 y1 : Q) (f : Q → Q → Q) :
  1 ≤ N →
  ∃ t y,
    perform_time_stepping1 T N y0 y1 f = Ok (t, y) ∧
    np_linspace 0 T (N + 1) = Ok t ∧
    euler_inv T N y1 f t y0 N y.
Proof.
  intros HN. unfold perform_time_stepping1.
  destruct (np_linspace_grid T N HN) as (t & -> & Hlen & _).
  rewrite bind_Ok, np_zeros_Ok, bind_Ok by lia.
  rewrite py_div_nonzero, bind_Ok by (apply inject_Z_nonzero; lia).
  rewrite setitem_in_range, bind_Ok by (rewrite length_replicate; lia).
  rewrite setitem_in_range, bind_Ok
    by (rewrite length_insert, length_replicate; lia).
  set (y_init := <[Z.to_nat 1 := y1]> (<[Z.to_nat 0 := y0]> _)).
  assert (Hinit : euler_inv T N y1 f t y0 1 y_init).
  { unfold y_init. split_and!.
    - by rewrite !length_insert, length_replicate.
    - rewrite list_lookup_insert_ne by lia.
      apply list_lookup_insert_eq. rewrite length_replicate. lia.
    - apply list_lookup_insert_eq. rewrite length_insert, length_replicate. lia.
    - intros j Hj. lia. }
  destruct (for_each_range_inv (euler_inv T N y1 f t y0)
    (λ n y_vals, y_n ← getitem y_vals n;
                 t_n ← getitem t n;
                 y_n' ← getitem y_vals n;
                 setitem y_vals (n + 1) (y_n + T / inject_Z N * f t_n y_n')%Q)
    1 N y_init Hinit) as (y & -> & Hfinal).
  { intros n s Hn Hs. by apply euler_body_inv. }
  exists t, y. split_and!; [done|done|].
  by replace (Z.max 1 N) with N in Hfinal by lia.
Qed.

Section rk4.
Variables (T : Q) (N : Z) (y0 : Q) (f : Q → Q → Q) (t_vals : list Q).

Local Abbreviation rk4_step_done := (rk4_step_done T N f t_vals).
Local Abbreviation rk4_inv := (rk4_inv T N y0 f t_vals).

Hypothesis N_pos : 1 ≤ N.
Hypothesis t_vals_length : length t_vals = Z.to_nat (N + 1).

Lemma rk4_body_inv (n : Z) (y_vals : list Q) :
  0 ≤ n < N → rk4_inv n y_vals →
  ∃ y_vals',
    (t_n ← getitem t_vals n;
     y_n ← getitem y_vals n;
     setitem y_vals (n + 1) (rk4_update (T / inject_Z N) f t_n y_n)) = Ok y_vals' ∧
    rk4_inv (n + 1) y_vals'.
Proof.
  intros Hn (Hlen & Hy0 & Hdone).
  destruct (lookup_lt_is_Some_2 y_vals (Z.to_nat n)) as [y_n Hy_n]; [lia|].
  destruct (lookup_lt_is_Some_2 t_vals (Z.to_nat n)) as [t_n Ht_n]; [lia|].
  exists (<[Z.to_nat (n + 1) := rk4_update (T / inject_Z N) f t_n y_n]> y_vals).
  split.
  - rewrite (getitem_Some t_vals n t_n), bind_Ok by first [lia | done].
    rewrite (getitem_Some y_vals n y_n), bind_Ok by first [lia | done].
    apply setitem_in_range. lia.
  - split_and!.
    + by rewrite length_insert.
    + by rewrite list_lookup_insert_ne by lia.
    + intros j Hj. destruct (decide (j = n)) as [->|Hne].
      * exists t_n, y_n. split_and!; [done| |].
        -- by rewrite list_lookup_insert_ne by lia.
        -- apply list_lookup_insert_eq. lia.
      * destruct (Hdone j) as (t_j & y_j & H1 & H2 & H3); [lia|].
        exists t_j, y_j. rewrite !list_lookup_insert_ne by lia. done.
Qed.
End rk4.

(** What [perform_time_stepping2] returns when there is at least one step. *)
Lemma perform_time_stepping2_spec (T : Q) (N M : Z) (y0 : Q) (f : Q → Q → Q) :
  1 ≤ N →
  ∃ t y,
    perform_time_stepping2 T N M y0 f = Ok (t, y) ∧
    np_linspace 0 T (N + 1) = Ok t ∧
    rk4_inv T N y0 f t N y.
Proof.
  intros HN. unfold perform_time_stepping2.
  destruct (np_linspace_grid T N HN) as (t & -> & Hlen & _).
  rewrite bind_Ok, np_zeros_Ok, bind_Ok by lia.
  rewrite py_div_nonzero, bind_Ok by (apply inject_Z_nonzero; lia).
  rewrite setitem_in_range, bind_Ok by (rewrite length_replicate; lia).
  set (y_init := <[Z.to_nat 0 := y0]> _).
  assert (Hinit : rk4_inv T N y0 f t 0 y_init).
  { unfold y_init. split_and!.
    - by rewrite !length_insert, length_replicate.
    - apply list_lookup_insert_eq. rewrite length_replicate. lia.
    - intros j Hj. lia. }
  destruct (for_each_range_inv (rk4_inv T N y0 f t)
    (λ n y_vals, t_n ← getitem t n;
                 y_n ← getitem y_vals n;
                 setitem y_vals (n + 1) (rk4_update (T / inject_Z N) f t_n y_n))
    0 N y_init Hinit) as (y & -> & Hfinal).
  { intros n s Hn Hs. by apply rk4_body_inv. }
  exists t, y. split_and!; [done|done|].
  by replace (Z.max 0 N) with N in Hfinal by lia.
Qed.

(** ** square_root.py *)

Lemma Qmult_1_r_eq (x : Q) : (x * 1)%Q = x.
Proof.
  destruct x as [n d]. unfold Qmult. simpl.
  by rewrite Z.mul_1_r, Pos.mul_1_r.
Qed.

(** With [N = 0] the sum has the single term of [k = 0], which is 1. *)
Lemma sum_taylor_terms_0 (delta_x x_new : Q) : sum_taylor_terms 0 delta_x x_new = Ok 1%Q.
Proof. reflexivity. Qed.

(** With [N >= 1] and an estimate equal to zero, the term of [k = 1]
    divides by zero. *)
Lemma taylor_term_1_zero (delta_x x_n : Q) :
  (x_n == 0)%Q → taylor_term 1 delta_x x_n = Raise ZeroDivisionError.
Proof.
  intros Hx. unfold taylor_term. simpl (1 =? 0).
  cbv iota.
  rewrite (py_div_nonzero (inject_Z (-1) ^ 1)%Q)
    by (intros H; vm_compute in H; discriminate).
  rewrite bind_Ok.
  change (math_comb (2 * 1) 1) with (Ok 2). rewrite bind_Ok.
  rewrite py_div_zero; [done|]. rewrite Hx. reflexivity.
Qed.

Lemma sum_taylor_terms_zero (N : Z) (delta_x x_new : Q) :
  1 ≤ N → (x_new == 0)%Q → sum_taylor_terms N delta_x x_new = Raise ZeroDivisionError.
Proof.
  intros HN Hx. unfold sum_taylor_terms.
  rewrite py_range_cons by lia. simpl for_each.
  rewrite py_range_cons by lia. simpl for_each.
  change (0 + 1) with 1. by rewrite taylor_term_1_zero.
Qed.

Lemma tolerance_unmet_true (a eps x_new : Q) :
  tolerance_unmet a eps x_new = true ↔ (eps < Qabs (x_new ^ 2 - a))%Q.
Proof.
  unfold tolerance_unmet. rewrite negb_true_iff.
  rewrite <- not_true_iff_false, Qle_bool_iff. split.
  - apply Qnot_le_lt.
  - apply Qlt_not_le.
Qed.

Lemma sqrt_reaches_count (a : Q) (N : Z) (eps x : Q) (it : Z) (x' : Q) (it' : Z) :
  sqrt_reaches a N eps x it x' it' → it ≤ it'.
Proof. induction 1; lia. Qed.

Lemma sqrt_loop_O (a : Q) (N : Z) (eps x : Q) (it : Z) :
  sqrt_loop O a N eps x it =
    if tolerance_unmet a eps x then None else Some (Ok (x, it)).
Proof. reflexivity. Qed.

Lemma sqrt_loop_S (fuel : nat) (a : Q) (N : Z) (eps x : Q) (it : Z) :
  sqrt_loop (S fuel) a N eps x it =
    if tolerance_unmet a eps x then
      match sum_taylor_terms N (a - x ^ 2)%Q x with
      | Raise e => Some (Raise e)
      | Ok s => sqrt_loop fuel a N eps (x * s)%Q (it + 1)
      end
    else Some (Ok (x, it)).
Proof. reflexivity. Qed.

(** A call that reaches a state continues from it with the fuel left. *)
Lemma sqrt_loop_reaches (a : Q) (N : Z) (eps x : Q) (it : Z) (x' : Q) (it' : Z) :
  sqrt_reaches a N eps x it x' it' →
  ∀ fuel, sqrt_loop (Z.to_nat (it' - it) + fuel) a N eps x it
          = sqrt_loop fuel a N eps x' it'.
Proof.
  induction 1 as [x it|x it s x' it' Hunmet Hsum Hrest IH]; intros fuel.
  - by replace (Z.to_nat (it - it)) with 0%nat by lia.
  - apply sqrt_reaches_count in Hrest.
    replace (Z.to_nat (it' - it)) with (S (Z.to_nat (it' - (it + 1)))) by lia.
    rewrite Nat.add_succ_l, sqrt_loop_S, Hunmet, Hsum. apply IH.
Qed.

Lemma sqrt_loop_zero_estimate (fuel : nat) (a : Q) (N : Z) (eps x : Q) (it : Z) :
  1 ≤ N → (x == 0)%Q → tolerance_unmet a eps x = true →
  sqrt_loop (S fuel) a N eps x it = Some (Raise ZeroDivisionError).
Proof.
  intros HN Hx Hunmet. rewrite sqrt_loop_S, Hunmet.
  by rewrite sum_taylor_terms_zero.
Qed.

Lemma sqrt_loop_no_terms (fuel : nat) (a eps x : Q) (it : Z) :
  tolerance_unmet a eps x = true → sqrt_loop fuel a 0 eps x it = None.
Proof.
  intros Hunmet. revert it. induction fuel as [|fuel IH]; intros it.
  - by rewrite sqrt_loop_O, Hunmet.
  - rewrite sqrt_loop_S, Hunmet, sum_taylor_terms_0, Qmult_1_r_eq. apply IH.
Qed.

Lemma sqrt_loop_tolerance_met (fuel : nat) (a : Q) (N : Z) (eps x : Q) (it : Z) :
  tolerance_unmet a eps x = false →
  sqrt_loop fuel a N eps x it = Some (Ok (x, it)).
Proof.
  intros Hmet. destruct fuel; [rewrite sqrt_loop_O|rewrite sqrt_loop_S];
    by rewrite Hmet.
Qed.

(** * The claims *)

(** ** legendre.py *)

(** C1. Recurrence consistency: for every sample vector [x] and every degree
    [n] with [2 <= n <= p], [compute_legendre x p] returns a table in which,
    at every sample index [i], the entry of row [n] is
    [((2n - 1) * x[i] * row(n-1)[i] - (n - 1) * row(n-2)[i]) / n]. *)
Theorem legendre_recurrence_consistency (x : list Q) (p n : Z) :
  2 ≤ n ≤ p →
  ∃ tbl,
    compute_legendre x p = Ok tbl ∧
    ∀ i x_i, x !! i = Some x_i →
      ∃ a b,
        cell tbl (n - 1) i = Some a ∧
        cell tbl (n - 2) i = Some b ∧
        cell tbl n i =
          Some ((inject_Z (2 * n - 1) * x_i * a - inject_Z (n - 1) * b) / inject_Z n)%Q.
Proof.
  intros Hn.
  destruct (compute_legendre_spec x p) as (tbl & Hrun & _ & Hrows & _ & _ & Hrec);
    [lia|].
  exists tbl. split; [done|]. intros i x_i Hx.
  destruct (Hrec n) as (r1 & r2 & H1 & H2 & H3); [lia|].
  pose proof (Forall_lookup_1 _ _ _ _ Hrows H1) as Hlen1.
  pose proof (Forall_lookup_1 _ _ _ _ Hrows H2) as Hlen2.
  simpl in Hlen1, Hlen2.
  apply lookup_lt_Some in Hx as Hi.
  destruct (lookup_lt_is_Some_2 r1 i) as [a Ha]; [lia|].
  destruct (lookup_lt_is_Some_2 r2 i) as [b Hb]; [lia|].
  exists a, b. unfold cell. rewrite H1, H2, H3. simpl.
  split_and!; [done|done|]. by apply lookup_legendre_row.
Qed.

Lemma legendre_recurrence_consistency_witness :
  2 ≤ 3 ≤ 3 ∧
  ∃ tbl, compute_legendre lin5 3 = Ok tbl ∧
    ∃ a b, cell tbl 2 1 = Some a ∧ cell tbl 1 1 = Some b ∧
      cell tbl 3 1 =
        Some ((inject_Z 5 * (-1 # 2) * a - inject_Z 2 * b) / inject_Z 3)%Q.
Proof.
  split; [lia|].
  destruct (legendre_recurrence_consistency lin5 3 3) as (tbl & Hrun & Hrec);
    [lia|].
  exists tbl. split; [exact Hrun|].
  exact (Hrec 1%nat (-1 # 2)%Q eq_refl).
Defined.

(** C4. Shape and first rows: for every degree [p >= 0] and sample vector
    [x], [compute_legendre x p] returns a table of [p + 1] rows of [len(x)]
    entries each, whose row 0 is all ones and, when [p >= 1], whose row 1 is
    [x]. *)
Theorem legendre_shape_and_first_rows (x : list Q) (p : Z) :
  0 ≤ p →
  ∃ tbl,
    compute_legendre x p = Ok tbl ∧
    length tbl = Z.to_nat (p + 1) ∧
    Forall (λ row, length row = length x) tbl ∧
    tbl !! 0%nat = Some (replicate (length x) 1%Q) ∧
    (1 ≤ p → tbl !! 1%nat = Some x).
Proof.
  intros Hp.
  destruct (compute_legendre_spec x p Hp) as (tbl & Hrun & Hlen & Hrows & H0 & H1 & _).
  by exists tbl.
Qed.

Lemma legendre_shape_and_first_rows_witness :
  0 ≤ 3 ∧
  ∃ tbl, compute_legendre lin5 3 = Ok tbl ∧ length tbl = 4%nat ∧
    tbl !! 0%nat = Some [1; 1; 1; 1; 1]%Q ∧ tbl !! 1%nat = Some lin5.
Proof.
  split; [lia|].
  destruct (legendre_shape_and_first_rows lin5 3) as (tbl & Hrun & Hlen & _ & H0 & H1);
    [lia|].
  exists tbl. split_and!; [exact Hrun|exact Hlen|exact H0|apply H1; lia].
Defined.

(** C9, as stated, fails at degree [-1]: the table allocated by
    [np.zeros((0, n_points))] has no row, the write to row 0 raises
    [IndexError], and that is not an invalid-argument error. *)
Lemma legendre_degree_minus_1_counterexample :
  compute_legendre lin5 (-1) = Raise IndexError ∧
  ¬ ∃ e, compute_legendre lin5 (-1) = Raise e ∧ is_invalid_argument e = true.
Proof.
  split; [reflexivity|].
  intros (e & Hrun & Hkind).
  change (compute_legendre lin5 (-1)) with (@Raise (list (list Q)) IndexError) in Hrun.
  injection Hrun as <-. discriminate Hkind.
Qed.

(** C9, amended. [compute_legendre] has no check of its own on the degree.
    For every sample vector and every [p < 0] the call returns no table: it
    raises [IndexError] from the write to row 0 when [p = -1], and
    [ValueError] from the allocation of the table when [p <= -2]. *)
Theorem legendre_negative_degree_raises (x : list Q) (p : Z) :
  p < 0 →
  compute_legendre x p = Raise (if p =? -1 then IndexError else ValueError).
Proof.
  intros Hp. unfold compute_legendre, np_zeros2.
  destruct (Z.eqb_spec p (-1)) as [->|Hne].
  - replace (Z.of_nat (length x) <? 0) with false
      by (symmetry; apply Z.ltb_ge; lia).
    reflexivity.
  - replace (p + 1 <? 0) with true by (symmetry; apply Z.ltb_lt; lia).
    reflexivity.
Qed.

Lemma legendre_negative_degree_raises_witness :
  -2 < 0 ∧ compute_legendre lin5 (-2) = Raise ValueError.
Proof.
  split; [lia|]. apply (legendre_negative_degree_raises lin5 (-2)). lia.
Defined.

(** ** time_steppers.py *)

(** C2. For every [T], every step count [N >= 1], every [y0], [y1] and [f],
    [perform_time_stepping1] returns two arrays of length [N + 1]; the time
    array is the even grid [t[n] = n * T / N]; [y[0]] is [y0]; [y[1]] is the
    supplied [y1] itself; and for [n = 1 .. N - 1],
    [y[n + 1] = y[n] + h * f(t[n], y[n])] with [h = T / N].  (The sign of [T]
    plays no part.) *)
Theorem euler_stepper_contract (T : Q) (N : Z) (y0 y1 : Q) (f : Q → Q → Q) :
  1 ≤ N →
  ∃ t y,
    perform_time_stepping1 T N y0 y1 f = Ok (t, y) ∧
    length t = Z.to_nat (N + 1) ∧
    length y = Z.to_nat (N + 1) ∧
    (∀ n, 0 ≤ n ≤ N →
       ∃ t_n, t !! Z.to_nat n = Some t_n ∧ (t_n == inject_Z n * T / inject_Z N)%Q) ∧
    y !! 0%nat = Some y0 ∧
    y !! 1%nat = Some y1 ∧
    (∀ n, 1 ≤ n ≤ N - 1 →
       ∃ t_n y_n,
         t !! Z.to_nat n = Some t_n ∧
         y !! Z.to_nat n = Some y_n ∧
         y !! Z.to_nat (n + 1) = Some (y_n + T / inject_Z N * f t_n y_n)%Q).
Proof.
  intros HN.
  destruct (perform_time_stepping1_spec T N y0 y1 f HN)
    as (t & y & Hrun & Hgrid & Hlen & Hy0 & Hy1 & Hsteps).
  destruct (np_linspace_grid T N HN) as (t' & Hgrid' & Hlen' & Heven).
  assert (t' = t) as -> by congruence.
  exists t, y. split_and!; try done.
  intros n Hn. apply Hsteps. lia.
Qed.

Lemma euler_stepper_contract_witness :
  1 ≤ 10 ∧
  ∃ t y, perform_time_stepping1 5 10 1 (5 # 4) growth = Ok (t, y) ∧
    length t = 11%nat ∧ length y = 11%nat ∧ y !! 1%nat = Some (5 # 4)%Q.
Proof.
  split; [lia|].
  destruct (euler_stepper_contract 5 10 1 (5 # 4) growth)
    as (t & y & Hrun & Hlen_t & Hlen_y & _ & _ & Hy1 & _); [lia|].
  exists t, y. split_and!; [exact Hrun|exact Hlen_t|exact Hlen_y|exact Hy1].
Defined.

(** C3. For every [T], every step count [N >= 1], every [M], [y0] and [f],
    [perform_time_stepping2] returns the even grid of [N + 1] time points
    [t[n] = n * T / N] and [N + 1] solution values with [y[0] = y0] such
    that, for every step [n = 0 .. N - 1] and with [h = T / N],
    [k1 = h * f(t_n, y_n)], [k2 = h * f(t_n + h/2, y_n + k1/2)],
    [k3 = h * f(t_n + h/2, y_n + k2/2)], [k4 = h * f(t_n + h, y_n + k3)] and
    [y[n + 1] = y_n + (k1 + 2*k2 + 2*k3 + k4) / 6]. *)
Theorem rk4_stepper_contract (T : Q) (N M : Z) (y0 : Q) (f : Q → Q → Q) :
  1 ≤ N →
  ∃ t y,
    perform_time_stepping2 T N M y0 f = Ok (t, y) ∧
    length t = Z.to_nat (N + 1) ∧
    length y = Z.to_nat (N + 1) ∧
    (∀ n, 0 ≤ n ≤ N →
       ∃ t_n, t !! Z.to_nat n = Some t_n ∧ (t_n == inject_Z n * T / inject_Z N)%Q) ∧
    y !! 0%nat = Some y0 ∧
    (∀ n, 0 ≤ n ≤ N - 1 →
       ∃ t_n y_n k1 k2 k3 k4,
         let h := (T / inject_Z N)%Q in
         t !! Z.to_nat n = Some t_n ∧
         y !! Z.to_nat n = Some y_n ∧
         k1 = (h * f t_n y_n)%Q ∧
         k2 = (h * f (t_n + h / 2) (y_n + k1 / 2))%Q ∧
         k3 = (h * f (t_n + h / 2) (y_n + k2 / 2))%Q ∧
         k4 = (h * f (t_n + h) (y_n + k3))%Q ∧
         y !! Z.to_nat (n + 1) = Some (y_n + (k1 + 2 * k2 + 2 * k3 + k4) / 6)%Q).
Proof.
  intros HN.
  destruct (perform_time_stepping2_spec T N M y0 f HN)
    as (t & y & Hrun & Hgrid & Hlen & Hy0 & Hsteps).
  destruct (np_linspace_grid T N HN) as (t' & Hgrid' & Hlen' & Heven).
  assert (t' = t) as -> by congruence.
  exists t, y. split_and!; try done.
  intros n Hn.
  destruct (Hsteps n) as (t_n & y_n & Ht & Hy & Hnext); [lia|].
  exists t_n, y_n. do 4 eexists. simpl.
  split_and!; [exact Ht|exact Hy|reflexivity..|exact Hnext].
Qed.

Lemma rk4_stepper_contract_witness :
  1 ≤ 10 ∧
  ∃ t y, perform_time_stepping2 5 10 5 1 growth = Ok (t, y) ∧
    length t = 11%nat ∧ length y = 11%nat ∧ y !! 0%nat = Some 1%Q.
Proof.
  split; [lia|].
  destruct (rk4_stepper_contract 5 10 5 1 growth)
    as (t & y & Hrun & Hlen_t & Hlen_y & _ & Hy0 & _); [lia|].
  exists t, y. split_and!; [exact Hrun|exact Hlen_t|exact Hlen_y|exact Hy0].
Defined.

(** C8. The parameter [M] of [perform_time_stepping2] is not used: for every
    [T], every [N >= 1], [y0] and [f], and any two values [M] and [M'], the
    two calls return the same time grid and the same solution array. *)
Theorem rk4_ignores_M (T : Q) (N : Z) (M M' : Z) (y0 : Q) (f : Q → Q → Q) :
  1 ≤ N →
  ∃ t y,
    perform_time_stepping2 T N M y0 f = Ok (t, y) ∧
    perform_time_stepping2 T N M' y0 f = Ok (t, y).
Proof.
  intros HN.
  destruct (perform_time_stepping2_spec T N M y0 f HN) as (t & y & Hrun & _).
  exists t, y. split; [done|]. exact Hrun.
Qed.

Lemma rk4_ignores_M_witness :
  1 ≤ 10 ∧
  ∃ t y, perform_time_stepping2 5 10 5 1 growth = Ok (t, y) ∧
         perform_time_stepping2 5 10 0 1 growth = Ok (t, y).
Proof.
  split; [lia|]. apply (rk4_ignores_M 5 10 5 0 1 growth). lia.
Defined.

(** C10. In [perform_time_stepping1] the initial condition [y0] reaches
    index 0 of the output only: for every [T], every [N >= 1], [y1], [f] and
    any two values [y0] and [y0'], the two calls return the same time grid,
    and solution arrays [y0 :: rest] and [y0' :: rest] with the same [N]
    entries after index 0. *)
Theorem euler_y0_only_index_0 (T : Q) (N : Z) (y0 y0' y1 : Q) (f : Q → Q → Q) :
  1 ≤ N →
  ∃ t rest,
    perform_time_stepping1 T N y0 y1 f = Ok (t, y0 :: rest) ∧
    perform_time_stepping1 T N y0' y1 f = Ok (t, y0' :: rest) ∧
    length rest = Z.to_nat N.
Proof.
  intros HN.
  destruct (perform_time_stepping1_spec T N y0 y1 f HN)
    as (t & y & Hrun & Hgrid & Hinv).
  destruct (perform_time_stepping1_spec T N y0' y1 f HN)
    as (t' & y' & Hrun' & Hgrid' & Hinv').
  assert (t' = t) as -> by congruence.
  pose proof Hinv as (Hlen & Hy0 & _).
  pose proof Hinv' as (Hlen' & Hy0' & _).
  destruct y as [|y_0 rest]; [done|]. destruct y' as [|y_0' rest']; [done|].
  injection Hy0 as ->. injection Hy0' as ->.
  simpl in Hlen, Hlen'.
  assert (rest' = rest) as ->.
  { apply list_eq. intros i.
    destruct (decide (i < Z.to_nat N)%nat) as [Hi|Hi].
    - symmetry.
      apply (euler_trajectory_unique T N y1 f t y0 y0' (y0 :: rest) (y0' :: rest') (S i));
        [done|done|lia|lia].
    - rewrite !lookup_ge_None_2 by lia. done. }
  exists t, rest. split_and!; [done|done|lia].
Qed.

Lemma euler_y0_only_index_0_witness :
  1 ≤ 10 ∧
  ∃ t rest,
    perform_time_stepping1 5 10 1 (5 # 4) growth = Ok (t, 1%Q :: rest) ∧
    perform_time_stepping1 5 10 7 (5 # 4) growth = Ok (t, 7%Q :: rest) ∧
    length rest = 10%nat.
Proof.
  split; [lia|]. apply (euler_y0_only_index_0 5 10 1 7 (5 # 4) growth). lia.
Defined.

(** ** square_root.py *)

Lemma sqrt_reaches_no_terms (a eps x : Q) (passes : nat) (it : Z) :
  tolerance_unmet a eps x = true →
  sqrt_reaches a 0 eps x it x (it + Z.of_nat passes).
Proof.
  intros Hunmet. revert it. induction passes as [|passes IH]; intros it.
  - replace (it + Z.of_nat 0) with it by lia. constructor.
  - apply (sqrt_reaches_pass a 0 eps x it 1%Q); [done|apply sum_taylor_terms_0|].
    rewrite Qmult_1_r_eq.
    replace (it + Z.of_nat (S passes)) with (it + 1 + Z.of_nat passes) by lia.
    apply IH.
Qed.

(** C5. If [x0 ** 2 == a] exactly (and [eps > 0]) the call returns at once,
    whatever [N] is: the loop body does not run, the result is [x0] and the
    iteration count is 0. *)
Theorem sqrt_exact_guess_returns_at_once (fuel : nat) (a : Q) (N : Z) (x0 eps : Q) :
  (x0 ^ 2 == a)%Q → (0 < eps)%Q →
  approx_square_root fuel a N x0 eps = Some (Ok (x0, 0)).
Proof.
  intros Hsq Heps. unfold approx_square_root.
  apply sqrt_loop_tolerance_met.
  destruct (tolerance_unmet a eps x0) eqn:E; [|done].
  apply tolerance_unmet_true in E. rewrite Hsq in E.
  assert (Hzero : (a - a == 0)%Q) by ring.
  rewrite Hzero in E.
  change (Qabs 0) with 0%Q in E. lra.
Qed.

Lemma sqrt_exact_guess_returns_at_once_witness :
  (4 ^ 2 == 16)%Q ∧ (0 < 1 # 1000000)%Q ∧
  approx_square_root 0 16 5 4 (1 # 1000000) = Some (Ok (4%Q, 0)).
Proof.
  split; [reflexivity|]. split; [reflexivity|].
  apply (sqrt_exact_guess_returns_at_once 0 16 5 4 (1 # 1000000)); reflexivity.
Defined.

(** C6. If a call of [approx_square_root] reaches, after [it] passes of its
    loop, an estimate [x] that is zero while the tolerance is unmet, and
    [N >= 1], then the call raises [ZeroDivisionError]: it neither returns a
    result nor goes on with the loop. *)
Theorem sqrt_zero_estimate_raises (fuel : nat) (a : Q) (N : Z) (x0 eps x : Q) (it : Z) :
  sqrt_reaches a N eps x0 0 x it →
  (x == 0)%Q →
  (eps < Qabs (x ^ 2 - a))%Q →
  1 ≤ N →
  (Z.to_nat it < fuel)%nat →
  approx_square_root fuel a N x0 eps = Some (Raise ZeroDivisionError).
Proof.
  intros Hreach Hx Hunmet HN Hfuel. unfold approx_square_root.
  apply tolerance_unmet_true in Hunmet.
  replace fuel with (Z.to_nat (it - 0) + S (fuel - S (Z.to_nat it)))%nat by lia.
  rewrite (sqrt_loop_reaches a N eps x0 0 x it Hreach).
  by apply sqrt_loop_zero_estimate.
Qed.

Lemma sqrt_zero_estimate_raises_witness :
  sqrt_reaches 2 1 (1 # 2) 0 0 0 0 ∧
  (0 == 0)%Q ∧
  (1 # 2 < Qabs (0 ^ 2 - 2))%Q ∧
  1 ≤ 1 ∧
  (Z.to_nat 0 < 1)%nat ∧
  approx_square_root 1 2 1 0 (1 # 2) = Some (Raise ZeroDivisionError).
Proof.
  assert (Hreach : sqrt_reaches 2 1 (1 # 2) 0 0 0 0) by constructor.
  assert (Hzero : (0 == 0)%Q) by reflexivity.
  assert (Hunmet : (1 # 2 < Qabs (0 ^ 2 - 2))%Q) by reflexivity.
  assert (HN : 1 ≤ 1) by lia.
  assert (Hfuel : (Z.to_nat 0 < 1)%nat) by (simpl; lia).
  split_and!; try assumption.
  exact (sqrt_zero_estimate_raises 1 2 1 0 (1 # 2) 0 0 Hreach Hzero Hunmet HN Hfuel).
Defined.

(** C7. [approx_square_root] has no bound on its iterations, and there are
    inputs on which it does not terminate: with [N = 0] and
    [abs(x0**2 - a) > eps] the correction factor is 1, the estimate stays
    [x0], and after any number of passes the loop is still running. *)
Theorem sqrt_no_terms_never_terminates (a x0 eps : Q) :
  (eps < Qabs (x0 ^ 2 - a))%Q →
  ∀ passes : nat,
    approx_square_root passes a 0 x0 eps = None ∧
    sqrt_reaches a 0 eps x0 0 x0 (Z.of_nat passes) ∧
    tolerance_unmet a eps x0 = true.
Proof.
  intros Hunmet passes. apply tolerance_unmet_true in Hunmet.
  split_and!; [|apply (sqrt_reaches_no_terms a eps x0 passes 0 Hunmet)|done].
  unfold approx_square_root. by apply sqrt_loop_no_terms.
Qed.

Lemma sqrt_no_terms_never_terminates_witness :
  (0 < 2)%Q ∧ 0 ≤ 0 ∧ ¬ (1 == 0)%Q ∧ (0 < 1 # 2)%Q ∧
  (1 # 2 < Qabs (1 ^ 2 - 2))%Q ∧
  ∀ passes : nat, approx_square_root passes 2 0 1 (1 # 2) = None.
Proof.
  split_and!; [reflexivity|lia|discriminate|reflexivity|reflexivity|].
  intros passes.
  exact (proj1 (sqrt_no_terms_never_terminates 2 1 (1 # 2) eq_refl passes)).
Defined.

(** ** The model on the inputs of the [__main__] blocks *)

(** [compute_legendre(np.linspace(-1, 1, 5), 3)], entry by entry up to
    equality of rationals. *)
Example compute_legendre_main :
  ∃ tbl, compute_legendre lin5 3 = Ok tbl ∧
    Forall2 (Forall2 Qeq) tbl
      [[1; 1; 1; 1; 1];
       [-1; -1 # 2; 0; 1 # 2; 1];
       [1; -1 # 8; -1 # 2; -1 # 8; 1];
       [-1; 7 # 16; 0; -7 # 16; 1]]%Q.
Proof.
  eexists. split; [reflexivity|].
  repeat (constructor; [repeat (constructor; [reflexivity|]); constructor|]).
  constructor.
Qed.

(** The grid of [np.linspace(-1, 1, 5)] is [lin5]. *)
Example np_linspace_main :
  ∃ t, np_linspace (-1) 1 5 = Ok t ∧ Forall2 Qeq t lin5.
Proof.
  eexists. split; [reflexivity|].
  repeat (constructor; [reflexivity|]). constructor.
Qed.

(** A zero estimate met after one pass of the loop: from [x0 = 1] with
    [a = -1] and [N = 1] the correction factor is [1 + (-2)/2 = 0]. *)
Example sqrt_zero_after_one_pass :
  approx_square_root 2 (-1) 1 1 (1 # 2) = Some (Raise ZeroDivisionError).
Proof. reflexivity. Qed.

(** Step counts below 1 make both steppers raise. *)
Example time_stepping_no_step :
  perform_time_stepping2 5 0 5 1 growth = Raise ZeroDivisionError ∧
  perform_time_stepping1 5 0 1 1 growth = Raise ZeroDivisionError ∧
  perform_time_stepping2 5 (-1) 5 1 growth = Raise IndexError ∧
  perform_time_stepping2 5 (-2) 5 1 growth = Raise ValueError.
Proof. repeat split; reflexivity. Qed.

(** * Further properties *)

(** ** legendre.py: the table in closed form *)

Lemma legendre_pair_snd (n : nat) (x : Q) :
  snd (legendre_pair n x) = legendre_value (S n) x.
Proof. unfold legendre_value. simpl. by destruct (legendre_pair n x). Qed.

Lemma legendre_value_SS (m : nat) (x : Q) :
  legendre_value (S (S m)) x =
    let d := Z.of_nat (S (S m)) in
    ((inject_Z (2 * d - 1) * x * legendre_value (S m) x
      - inject_Z (d - 1) * legendre_value m x) / inject_Z d)%Q.
Proof.
  rewrite <- (legendre_pair_snd (S m)), <- (legendre_pair_snd m).
  unfold legendre_value. simpl. by destruct (legendre_pair m x).
Qed.

Lemma legendre_row_fmap (n : Z) (g1 g2 : Q → Q) (x : list Q) :
  legendre_row n x (g1 <$> x) (g2 <$> x) =
    (λ v, (inject_Z (2 * n - 1) * v * g1 v - inject_Z (n - 1) * g2 v) / inject_Z n)%Q
      <$> x.
Proof.
  unfold legendre_row. induction x as [|v x IH]; [done|].
  simpl. f_equal. exact IH.
Qed.

(** Every row of a table that satisfies the loop invariant is the scalar
    recurrence mapped over the samples. *)
Lemma legendre_inv_rows (x : list Q) (p : Z) (tbl : list (list Q)) :
  0 ≤ p → legendre_inv x p (p + 1) tbl →
  ∀ n : nat, Z.of_nat n ≤ p → tbl !! n = Some (legendre_value n <$> x).
Proof.
  intros Hp (Hlen & Hrows & Hrow0 & Hrow1 & Hrec).
  assert (Hboth : ∀ n : nat,
    (Z.of_nat n ≤ p → tbl !! n = Some (legendre_value n <$> x)) ∧
    (Z.of_nat (S n) ≤ p → tbl !! S n = Some (legendre_value (S n) <$> x))).
  { induction n as [|n [IHn IHSn]].
    - split; intros Hn.
      + rewrite Hrow0. f_equal. symmetry. apply const_fmap. done.
      + rewrite Hrow1 by lia. f_equal. symmetry.
        rewrite <- (list_fmap_id x) at 2. by apply list_fmap_ext.
    - split; [done|]. intros Hn.
      destruct (Hrec (Z.of_nat (S (S n)))) as (r1 & r2 & H1 & H2 & H3); [lia|].
      replace (Z.to_nat (Z.of_nat (S (S n)) - 1)) with (S n) in H1 by lia.
      replace (Z.to_nat (Z.of_nat (S (S n)) - 2)) with n in H2 by lia.
      rewrite Nat2Z.id in H3.
      rewrite IHSn in H1 by lia. rewrite IHn in H2 by lia.
      injection H1 as <-. injection H2 as <-.
      rewrite H3, legendre_row_fmap. f_equal.
      apply list_fmap_ext. intros i v _. by rewrite legendre_value_SS. }
  intros n. apply Hboth.
Qed.

Lemma compute_legendre_closed (x : list Q) (p : Z) :
  0 ≤ p →
  compute_legendre x p =
    Ok ((λ n, legendre_value n <$> x) <$> seq 0 (Z.to_nat (p + 1))).
Proof.
  intros Hp.
  destruct (compute_legendre_spec x p Hp) as (tbl & -> & Hinv).
  f_equal. pose proof Hinv as (Hlen & _).
  apply list_eq. intros n.
  destruct (decide (n < Z.to_nat (p + 1))%nat) as [Hn|Hn].
  - rewrite (legendre_inv_rows x p tbl Hp Hinv n) by lia.
    by rewrite list_lookup_fmap, lookup_seq_lt.
  - rewrite !lookup_ge_None_2; [done| |lia].
    rewrite length_fmap, length_seq. lia.
Qed.

Lemma cell_closed (x : list Q) (m n i : nat) (v : Q) :
  (n < m)%nat → x !! i = Some v →
  cell ((λ n, legendre_value n <$> x) <$> seq 0 m) (Z.of_nat n) i
    = Some (legendre_value n v).
Proof.
  intros Hn Hv. unfold cell.
  rewrite Nat2Z.id, list_lookup_fmap, lookup_seq_lt by done. simpl.
  by rewrite list_lookup_fmap, Hv.
Qed.

Lemma inject_Z_degree (d : Z) :
  (inject_Z (2 * d - 1) == 2 * inject_Z d - 1)%Q ∧
  (inject_Z (d - 1) == inject_Z d - 1)%Q.
Proof. unfold Qeq. simpl. lia. Qed.

Lemma inject_Z_sign_succ (n : nat) :
  (inject_Z ((-1) ^ Z.of_nat (S n)) == - inject_Z ((-1) ^ Z.of_nat n))%Q.
Proof.
  rewrite Nat2Z.inj_succ, Z.pow_succ_r by lia.
  unfold Qeq. simpl. lia.
Qed.

Lemma inject_Z_sign_square (n : nat) :
  (inject_Z ((-1) ^ Z.of_nat n) * inject_Z ((-1) ^ Z.of_nat n) == 1)%Q.
Proof.
  induction n as [|n IH]; [reflexivity|].
  rewrite inject_Z_sign_succ. rewrite <- IH. ring.
Qed.

(** The recurrence at a sample equal to 1 gives 1 in every degree. *)
Lemma legendre_pair_at_1 (n : nat) (v : Q) :
  (v == 1)%Q →
  (fst (legendre_pair n v) == 1)%Q ∧ (snd (legendre_pair n v) == 1)%Q.
Proof.
  intros Hv. induction n as [|n [IHa IHb]]; [by split|].
  simpl. destruct (legendre_pair n v) as [a b]. simpl in *. split; [done|].
  destruct (inject_Z_degree (Z.of_nat (S (S n)))) as [-> ->].
  rewrite Hv, IHa, IHb. field.
  apply inject_Z_nonzero. lia.
Qed.

(** The recurrence at a sample equal to -1 gives [(-1)^n] in degree [n]. *)
Lemma legendre_pair_at_minus_1 (n : nat) (v : Q) :
  (v == -1)%Q →
  (fst (legendre_pair n v) == inject_Z ((-1) ^ Z.of_nat n))%Q ∧
  (snd (legendre_pair n v) == inject_Z ((-1) ^ Z.of_nat (S n)))%Q.
Proof.
  intros Hv. induction n as [|n [IHa IHb]]; [by split|].
  simpl legendre_pair. destruct (legendre_pair n v) as [a b].
  cbn [fst snd] in *. split; [done|].
  destruct (inject_Z_degree (Z.of_nat (S (S n)))) as [-> ->].
  rewrite Hv, IHa, IHb. rewrite (inject_Z_sign_succ (S n)), !inject_Z_sign_succ.
  field. apply inject_Z_nonzero. lia.
Qed.

(** The recurrence at the opposite sample: the value of degree [n] is
    multiplied by [(-1)^n]. *)
Lemma legendre_pair_opp (n : nat) (v : Q) :
  (fst (legendre_pair n (- v)) ==
     inject_Z ((-1) ^ Z.of_nat n) * fst (legendre_pair n v))%Q ∧
  (snd (legendre_pair n (- v)) ==
     inject_Z ((-1) ^ Z.of_nat (S n)) * snd (legendre_pair n v))%Q.
Proof.
  induction n as [|n [IHa IHb]].
  - split; [reflexivity|]. cbn [legendre_pair snd].
    change (inject_Z ((-1) ^ Z.of_nat 1)) with (-1)%Q. ring.
  - simpl legendre_pair.
    destruct (legendre_pair n (- v)) as [a' b'], (legendre_pair n v) as [a b].
    cbn [fst snd] in *. split; [done|].
    destruct (inject_Z_degree (Z.of_nat (S (S n)))) as [-> ->].
    rewrite IHa, IHb. rewrite (inject_Z_sign_succ (S n)), !inject_Z_sign_succ.
    field. apply inject_Z_nonzero. lia.
Qed.

Lemma compute_legendre_cell (x : list Q) (p n : Z) (i : nat) (v : Q) :
  0 ≤ n ≤ p → x !! i = Some v →
  ∃ tbl, compute_legendre x p = Ok tbl ∧
         cell tbl n i = Some (legendre_value (Z.to_nat n) v).
Proof.
  intros Hn Hv. eexists. split; [apply compute_legendre_closed; lia|].
  rewrite <- (Z2Nat.id n) at 1 by lia. apply cell_closed; [lia|done].
Qed.

(** X1. For a degree [p >= 0] the table is, row by row and sample by
    sample, the scalar three-term recurrence: row [n] is
    [legendre_value n] mapped over [x], for [n = 0 .. p]. *)
Theorem legendre_table_closed_form (x : list Q) (p : Z) :
  0 ≤ p →
  compute_legendre x p =
    Ok ((λ n, legendre_value n <$> x) <$> seq 0 (Z.to_nat (p + 1))).
Proof. apply compute_legendre_closed. Qed.

Lemma legendre_table_closed_form_witness :
  0 ≤ 3 ∧
  compute_legendre lin5 3 =
    Ok ((λ n, legendre_value n <$> lin5) <$> [0; 1; 2; 3]%nat).
Proof.
  split; [lia|]. apply (legendre_table_closed_form lin5 3). lia.
Defined.

(** X2. The table of a smaller degree is a prefix of the table of a larger
    one: for [0 <= q <= p], [compute_legendre x q] is the first [q + 1] rows
    of [compute_legendre x p]. *)
Theorem legendre_smaller_degree_is_prefix (x : list Q) (p q : Z) :
  0 ≤ q ≤ p →
  ∃ tbl,
    compute_legendre x p = Ok tbl ∧
    compute_legendre x q = Ok (take (Z.to_nat (q + 1)) tbl).
Proof.
  intros Hq. eexists. split; [apply compute_legendre_closed; lia|].
  rewrite compute_legendre_closed by lia. f_equal.
  rewrite <- fmap_take, take_seq. f_equal. f_equal. lia.
Qed.

Lemma legendre_smaller_degree_is_prefix_witness :
  0 ≤ 1 ≤ 3 ∧
  ∃ tbl, compute_legendre lin5 3 = Ok tbl ∧
         compute_legendre lin5 1 = Ok (take 2 tbl).
Proof.
  split; [lia|]. apply (legendre_smaller_degree_is_prefix lin5 3 1). lia.
Defined.

(** X3. An entry of the table depends on its degree and on its own sample
    only: two calls whose sample vectors hold the same value [v], at
    whatever positions and among whatever other samples, return the same
    entry of degree [n] there. *)
Theorem legendre_entry_depends_on_own_sample
    (x x' : list Q) (p n : Z) (i j : nat) (v : Q) :
  0 ≤ n ≤ p → x !! i = Some v → x' !! j = Some v →
  ∃ tbl tbl' c,
    compute_legendre x p = Ok tbl ∧
    compute_legendre x' p = Ok tbl' ∧
    cell tbl n i = Some c ∧
    cell tbl' n j = Some c.
Proof.
  intros Hn Hi Hj.
  destruct (compute_legendre_cell x p n i v Hn Hi) as (tbl & Hrun & Hc).
  destruct (compute_legendre_cell x' p n j v Hn Hj) as (tbl' & Hrun' & Hc').
  by exists tbl, tbl', (legendre_value (Z.to_nat n) v).
Qed.

Lemma legendre_entry_depends_on_own_sample_witness :
  0 ≤ 3 ≤ 3 ∧ lin5 !! 3%nat = Some (1 # 2)%Q ∧ [1 # 2]%Q !! 0%nat = Some (1 # 2)%Q ∧
  ∃ tbl tbl' c,
    compute_legendre lin5 3 = Ok tbl ∧
    compute_legendre [1 # 2]%Q 3 = Ok tbl' ∧
    cell tbl 3 3 = Some c ∧
    cell tbl' 3 0 = Some c.
Proof.
  split; [lia|]. split; [reflexivity|]. split; [reflexivity|].
  apply (legendre_entry_depends_on_own_sample lin5 [1 # 2]%Q 3 3 3 0 (1 # 2)%Q);
    [lia|reflexivity|reflexivity].
Defined.

(** X4. At a sample equal to 1 every degree has the value 1: for
    [0 <= n <= p], the entry of row [n] at such a sample equals 1. *)
Theorem legendre_at_1 (x : list Q) (p n : Z) (i : nat) (v : Q) :
  0 ≤ n ≤ p → x !! i = Some v → (v == 1)%Q →
  ∃ tbl c,
    compute_legendre x p = Ok tbl ∧ cell tbl n i = Some c ∧ (c == 1)%Q.
Proof.
  intros Hn Hi Hv.
  destruct (compute_legendre_cell x p n i v Hn Hi) as (tbl & Hrun & Hc).
  exists tbl, (legendre_value (Z.to_nat n) v). split_and!; [done|done|].
  by apply legendre_pair_at_1.
Qed.

Lemma legendre_at_1_witness :
  0 ≤ 3 ≤ 3 ∧ lin5 !! 4%nat = Some 1%Q ∧ (1 == 1)%Q ∧
  ∃ tbl c, compute_legendre lin5 3 = Ok tbl ∧ cell tbl 3 4 = Some c ∧ (c == 1)%Q.
Proof.
  split; [lia|]. split; [reflexivity|]. split; [reflexivity|].
  apply (legendre_at_1 lin5 3 3 4 1%Q); [lia|reflexivity|reflexivity].
Defined.

(** X5. At a sample equal to -1 the value of degree [n] is [(-1)^n]. *)
Theorem legendre_at_minus_1 (x : list Q) (p n : Z) (i : nat) (v : Q) :
  0 ≤ n ≤ p → x !! i = Some v → (v == -1)%Q →
  ∃ tbl c,
    compute_legendre x p = Ok tbl ∧ cell tbl n i = Some c ∧
    (c == inject_Z ((-1) ^ n))%Q.
Proof.
  intros Hn Hi Hv.
  destruct (compute_legendre_cell x p n i v Hn Hi) as (tbl & Hrun & Hc).
  exists tbl, (legendre_value (Z.to_nat n) v). split_and!; [done|done|].
  rewrite <- (Z2Nat.id n) at 2 by lia.
  by apply legendre_pair_at_minus_1.
Qed.

Lemma legendre_at_minus_1_witness :
  0 ≤ 3 ≤ 3 ∧ lin5 !! 0%nat = Some (-1)%Q ∧ (-1 == -1)%Q ∧
  ∃ tbl c, compute_legendre lin5 3 = Ok tbl ∧ cell tbl 3 0 = Some c ∧ (c == -1)%Q.
Proof.
  split; [lia|]. split; [reflexivity|]. split; [reflexivity|].
  apply (legendre_at_minus_1 lin5 3 3 0 (-1)%Q); [lia|reflexivity|reflexivity].
Defined.

(** X6. Parity: negating every sample multiplies the entries of row [n] by
    [(-1)^n], for [0 <= n <= p]. *)
Theorem legendre_parity (x : list Q) (p n : Z) (i : nat) (v : Q) :
  0 ≤ n ≤ p → x !! i = Some v →
  ∃ tbl tbl' c c',
    compute_legendre x p = Ok tbl ∧
    compute_legendre (Qopp <$> x) p = Ok tbl' ∧
    cell tbl n i = Some c ∧
    cell tbl' n i = Some c' ∧
    (c' == inject_Z ((-1) ^ n) * c)%Q.
Proof.
  intros Hn Hi.
  destruct (compute_legendre_cell x p n i v Hn Hi) as (tbl & Hrun & Hc).
  destruct (compute_legendre_cell (Qopp <$> x) p n i (- v)%Q Hn)
    as (tbl' & Hrun' & Hc'); [by rewrite list_lookup_fmap, Hi|].
  exists tbl, tbl', (legendre_value (Z.to_nat n) v),
    (legendre_value (Z.to_nat n) (- v)).
  split_and!; [done..|].
  rewrite <- (Z2Nat.id n) at 2 by lia.
  apply legendre_pair_opp.
Qed.

Lemma legendre_parity_witness :
  0 ≤ 3 ≤ 3 ∧ lin5 !! 1%nat = Some (-1 # 2)%Q ∧
  ∃ tbl tbl' c c',
    compute_legendre lin5 3 = Ok tbl ∧
    compute_legendre (Qopp <$> lin5) 3 = Ok tbl' ∧
    cell tbl 3 1 = Some c ∧ cell tbl' 3 1 = Some c' ∧ (c' == -1 * c)%Q.
Proof.
  split; [lia|]. split; [reflexivity|].
  apply (legendre_parity lin5 3 3 1 (-1 # 2)%Q); [lia|reflexivity].
Defined.

(** X7. With no sample the table still has its [p + 1] rows, all empty. *)
Theorem legendre_no_samples (p : Z) :
  0 ≤ p → compute_legendre [] p = Ok (replicate (Z.to_nat (p + 1)) []).
Proof.
  intros Hp. rewrite compute_legendre_closed by done. f_equal.
  rewrite (const_fmap _ _ []) by done. by rewrite length_seq.
Qed.

Lemma legendre_no_samples_witness :
  0 ≤ 2 ∧ compute_legendre [] 2 = Ok [[]; []; []].
Proof.
  split; [lia|]. apply (legendre_no_samples 2). lia.
Defined.

(** ** square_root.py: outcomes of a call *)


Lemma tolerance_unmet_Qeq (a eps x x' : Q) :
  (x == x')%Q → tolerance_unmet a eps x = tolerance_unmet a eps x'.
Proof.
  intros Hx. unfold tolerance_unmet. f_equal.
  apply eq_true_iff_eq. rewrite !Qle_bool_iff. by rewrite Hx.
Qed.











Lemma sqrt_reaches_trans (a : Q) (N : Z) (eps x1 : Q) (it1 : Z) (x2 : Q) (it2 : Z)
    (x3 : Q) (it3 : Z) :
  sqrt_reaches a N eps x1 it1 x2 it2 → sqrt_reaches a N eps x2 it2 x3 it3 →
  sqrt_reaches a N eps x1 it1 x3 it3.
Proof.
  induction 1 as [|x it s x' it' Hunmet Hsum Hrest IH]; [done|].
  intros Hnext. eapply sqrt_reaches_pass; eauto.
Qed.








(** ** square_root.py: one term of positive index ([N = 1]) *)












(** ** square_root.py: the sign of the initial guess, and [N < 0] *)

Lemma Qopp_square (x : Q) : ((- x) ^ 2)%Q = (x ^ 2)%Q.
Proof.
  destruct x as [n d]. change ((- (n # d)) ^ 2)%Q with ((- n # d) * (- n # d))%Q.
  change ((n # d) ^ 2)%Q with ((n # d) * (n # d))%Q.
  unfold Qmult. simpl. f_equal. lia.
Qed.

Lemma Qmult_opp_l_eq (x s : Q) : ((- x) * s)%Q = (- (x * s))%Q.
Proof.
  destruct x as [n d], s as [m e]. unfold Qmult, Qopp. simpl. f_equal. lia.
Qed.

Lemma for_each_ext {S A : Type} (l : list A) (body body' : A → S → result S) (s : S) :
  (∀ n s, body n s = body' n s) → for_each l body s = for_each l body' s.
Proof.
  intros Hext. revert s. induction l as [|n l IH]; intros s; [done|].
  simpl. rewrite Hext. destruct (body' n s) as [s'|e]; [|done].
  rewrite !bind_Ok. apply IH.
Qed.

Lemma taylor_term_opp (k : Z) (delta_x x_n : Q) :
  taylor_term k delta_x (- x_n) = taylor_term k delta_x x_n.
Proof. unfold taylor_term. by rewrite Qopp_square. Qed.

Lemma sum_taylor_terms_opp (N : Z) (delta_x x_new : Q) :
  sum_taylor_terms N delta_x (- x_new) = sum_taylor_terms N delta_x x_new.
Proof.
  unfold sum_taylor_terms. apply for_each_ext.
  intros k acc. by rewrite taylor_term_opp.
Qed.

Lemma sqrt_loop_opp (fuel : nat) (a : Q) (N : Z) (eps x : Q) (it : Z) :
  sqrt_loop fuel a N eps (- x) it = negate_estimate (sqrt_loop fuel a N eps x it).
Proof.
  assert (Hunmet : ∀ y, tolerance_unmet a eps (- y) = tolerance_unmet a eps y).
  { intros y. unfold tolerance_unmet. by rewrite Qopp_square. }
  revert x it. induction fuel as [|fuel IH]; intros x it.
  - rewrite !sqrt_loop_O, Hunmet. by destruct (tolerance_unmet a eps x).
  - rewrite !sqrt_loop_S, Hunmet, Qopp_square, sum_taylor_terms_opp.
    destruct (tolerance_unmet a eps x); [|done].
    destruct (sum_taylor_terms N (a - x ^ 2) x) as [s|e]; [|done].
    rewrite Qmult_opp_l_eq. apply IH.
Qed.

(** X13. The sign of the initial guess is carried through: the call from
    [-x0] makes the same number of passes as the call from [x0], raises or
    fails to finish exactly when that one does, and returns the opposite
    estimate with the same iteration count. *)
Theorem sqrt_opposite_guess (fuel : nat) (a : Q) (N : Z) (x0 eps : Q) :
  approx_square_root fuel a N (- x0) eps =
    negate_estimate (approx_square_root fuel a N x0 eps).
Proof. apply sqrt_loop_opp. Qed.

Lemma sum_taylor_terms_negative (N : Z) (delta_x x_new : Q) :
  N < 0 → sum_taylor_terms N delta_x x_new = Ok 0%Q.
Proof. intros HN. unfold sum_taylor_terms. by rewrite py_range_empty by lia. Qed.

Lemma tolerance_unmet_at_zero (a eps x : Q) :
  (x == 0)%Q → tolerance_unmet a eps x = negb (Qle_bool (Qabs a) eps).
Proof.
  intros Hx. unfold tolerance_unmet. f_equal.
  apply eq_true_iff_eq. rewrite !Qle_bool_iff.
  assert (Hopp : (x ^ 2 - a == - a)%Q) by (rewrite Hx; ring).
  by rewrite Hopp, Qabs_opp.
Qed.

Lemma sqrt_loop_negative_stuck (fuel : nat) (a : Q) (N : Z) (eps x : Q) (it : Z) :
  N < 0 → (x == 0)%Q → (eps < Qabs a)%Q → sqrt_loop fuel a N eps x it = None.
Proof.
  intros HN Hx Ha.
  assert (Hunmet : ∀ y, (y == 0)%Q → tolerance_unmet a eps y = true).
  { intros y Hy. rewrite tolerance_unmet_at_zero by done.
    apply negb_true_iff, not_true_iff_false. rewrite Qle_bool_iff. lra. }
  revert x it Hx. induction fuel as [|fuel IH]; intros x it Hx.
  - by rewrite sqrt_loop_O, Hunmet.
  - rewrite sqrt_loop_S, Hunmet, sum_taylor_terms_negative by done.
    apply IH. ring.
Qed.

(** X14. A negative [N] is not rejected: the sum has no term, the
    correction factor is 0 and the first pass sets the estimate to zero.
    When the tolerance is unmet at [x0], the call then returns that zero
    estimate with count 1 if [abs(a) <= eps], and never terminates if
    [abs(a) > eps]. *)
Theorem sqrt_negative_term_count (a : Q) (N : Z) (x0 eps : Q) :
  N < 0 → (eps < Qabs (x0 ^ 2 - a))%Q →
  ((Qabs a <= eps)%Q →
     ∀ fuel, (1 ≤ fuel)%nat →
       approx_square_root fuel a N x0 eps = Some (Ok ((x0 * 0)%Q, 1))) ∧
  ((eps < Qabs a)%Q →
     ∀ fuel, approx_square_root fuel a N x0 eps = None).
Proof.
  intros HN Hunmet. apply tolerance_unmet_true in Hunmet.
  assert (Hzero : (x0 * 0 == 0)%Q) by ring.
  unfold approx_square_root. split.
  - intros Ha fuel Hfuel. destruct fuel as [|fuel]; [lia|].
    rewrite sqrt_loop_S, Hunmet, sum_taylor_terms_negative by done.
    apply sqrt_loop_tolerance_met.
    rewrite tolerance_unmet_at_zero by done.
    apply negb_false_iff. by apply Qle_bool_iff.
  - intros Ha fuel. destruct fuel as [|fuel].
    + by rewrite sqrt_loop_O, Hunmet.
    + rewrite sqrt_loop_S, Hunmet, sum_taylor_terms_negative by done.
      by apply sqrt_loop_negative_stuck.
Qed.

Lemma sqrt_negative_term_count_witness :
  -1 < 0 ∧ (1 # 2 < Qabs (1 ^ 2 - 2))%Q ∧ (1 # 2 < Qabs 2)%Q ∧
  ∀ fuel, approx_square_root fuel 2 (-1) 1 (1 # 2) = None.
Proof.
  split; [lia|]. split; [reflexivity|]. split; [reflexivity|].
  apply (sqrt_negative_term_count 2 (-1) 1 (1 # 2)); [lia|reflexivity|reflexivity].
Defined.

(** ** time_steppers.py: step counts below 1 *)

Lemma np_linspace_negative (start stop : Q) (num : Z) :
  num < 0 → np_linspace start stop num = Raise ValueError.
Proof.
  intros H. unfold np_linspace.
  by replace (num <? 0) with true by (symmetry; apply Z.ltb_lt; lia).
Qed.

(** X15. [perform_time_stepping1] does not check [N]; a step count below 1
    makes it raise: [ZeroDivisionError] from [T / N] when [N = 0],
    [IndexError] from the write to [y_vals[0]] when [N = -1], and
    [ValueError] from [np.linspace] when [N <= -2]. *)
Theorem euler_stepper_no_step (T : Q) (N : Z) (y0 y1 : Q) (f : Q → Q → Q) :
  N < 1 →
  perform_time_stepping1 T N y0 y1 f =
    Raise (if N =? 0 then ZeroDivisionError
           else if N =? -1 then IndexError else ValueError).
Proof.
  intros HN. unfold perform_time_stepping1.
  destruct (Z.eqb_spec N 0) as [->|H0]; [reflexivity|].
  destruct (Z.eqb_spec N (-1)) as [->|H1]; [reflexivity|].
  by rewrite np_linspace_negative by lia.
Qed.

Lemma euler_stepper_no_step_witness :
  0 < 1 ∧ perform_time_stepping1 5 0 1 (5 # 4) growth = Raise ZeroDivisionError.
Proof.
  split; [lia|]. apply (euler_stepper_no_step 5 0 1 (5 # 4) growth). lia.
Defined.

(** X16. [perform_time_stepping2] raises in the same way for a step count
    below 1. *)
Theorem rk4_stepper_no_step (T : Q) (N M : Z) (y0 : Q) (f : Q → Q → Q) :
  N < 1 →
  perform_time_stepping2 T N M y0 f =
    Raise (if N =? 0 then ZeroDivisionError
           else if N =? -1 then IndexError else ValueError).
Proof.
  intros HN. unfold perform_time_stepping2.
  destruct (Z.eqb_spec N 0) as [->|H0]; [reflexivity|].
  destruct (Z.eqb_spec N (-1)) as [->|H1]; [reflexivity|].
  by rewrite np_linspace_negative by lia.
Qed.

Lemma rk4_stepper_no_step_witness :
  -1 < 1 ∧ perform_time_stepping2 5 (-1) 5 1 growth = Raise IndexError.
Proof.
  split; [lia|]. apply (rk4_stepper_no_step 5 (-1) 5 1 growth). lia.
Defined.

(** ** time_steppers.py: the linear test equation and quadrature *)

(** One Runge-Kutta update of [y' = lam * y] multiplies by the polynomial
    [1 + z + z^2/2 + z^3/6 + z^4/24] in [z = h * lam]. *)
Lemma rk4_update_linear (h lam t_n y_n : Q) :
  (rk4_update h (linear_rhs lam) t_n y_n ==
     y_n * rk4_growth_factor (h * lam))%Q.
Proof. unfold rk4_update, linear_rhs, rk4_growth_factor. field. Qed.

Lemma Qpower_succ_nat (q : Q) (n : nat) :
  (q ^ Z.of_nat (S n) == q ^ Z.of_nat n * q)%Q.
Proof.
  rewrite Nat2Z.inj_succ. unfold Z.succ.
  rewrite Qpower_plus' by lia. reflexivity.
Qed.

Lemma rk4_inv_linear (T : Q) (N : Z) (y0 lam : Q) (t y : list Q) (n : nat) :
  rk4_inv T N y0 (linear_rhs lam) t N y → Z.of_nat n ≤ N →
  ∃ y_n, y !! n = Some y_n ∧
         (y_n == y0 * rk4_growth_factor (T / inject_Z N * lam) ^ Z.of_nat n)%Q.
Proof.
  intros (_ & Hy0 & Hsteps). induction n as [|n IH]; intros Hn.
  - exists y0. split; [done|]. change (_ ^ Z.of_nat 0)%Q with 1%Q. ring.
  - destruct IH as (y_n & Hy_n & Hval); [lia|].
    destruct (Hsteps (Z.of_nat n)) as (t_n & y_n' & _ & Hy_n' & Hnext); [lia|].
    rewrite Nat2Z.id in Hy_n'.
    replace (Z.to_nat (Z.of_nat n + 1)) with (S n) in Hnext by lia.
    assert (y_n' = y_n) as -> by congruence.
    eexists. split; [exact Hnext|].
    rewrite rk4_update_linear, Hval, Qpower_succ_nat. ring.
Qed.

(** X17. On the linear equation [y' = lam * y] the Runge-Kutta stepper
    returns the geometric sequence [y[n] = y0 * R^n], where
    [R = 1 + z + z^2/2 + z^3/6 + z^4/24] and [z = (T / N) * lam]. *)
Theorem rk4_linear_equation (T : Q) (N M : Z) (y0 lam : Q) :
  1 ≤ N →
  ∃ t y,
    perform_time_stepping2 T N M y0 (linear_rhs lam) = Ok (t, y) ∧
    ∀ n : nat, Z.of_nat n ≤ N →
      ∃ y_n, y !! n = Some y_n ∧
        (y_n == y0 * rk4_growth_factor (T / inject_Z N * lam) ^ Z.of_nat n)%Q.
Proof.
  intros HN.
  destruct (perform_time_stepping2_spec T N M y0 (linear_rhs lam) HN)
    as (t & y & Hrun & _ & Hinv).
  exists t, y. split; [done|]. intros n Hn.
  by apply (rk4_inv_linear T N y0 lam t y n).
Qed.

Lemma rk4_linear_equation_witness :
  1 ≤ 10 ∧
  ∃ t y, perform_time_stepping2 5 10 5 1 (linear_rhs 1) = Ok (t, y) ∧
    ∃ y_n, y !! 10%nat = Some y_n ∧
      (y_n == 1 * rk4_growth_factor (5 / inject_Z 10 * 1) ^ 10)%Q.
Proof.
  split; [lia|].
  destruct (rk4_linear_equation 5 10 5 1 1) as (t & y & Hrun & Hval); [lia|].
  exists t, y. split; [exact Hrun|]. apply (Hval 10%nat). lia.
Defined.

Lemma euler_inv_linear (T : Q) (N : Z) (y0 y1 lam : Q) (t y : list Q) (n : nat) :
  euler_inv T N y1 (linear_rhs lam) t y0 N y → Z.of_nat (S n) ≤ N →
  ∃ y_n, y !! S n = Some y_n ∧
         (y_n == y1 * (1 + T / inject_Z N * lam) ^ Z.of_nat n)%Q.
Proof.
  intros (_ & _ & Hy1 & Hsteps). induction n as [|n IH]; intros Hn.
  - exists y1. split; [done|]. change (_ ^ Z.of_nat 0)%Q with 1%Q. ring.
  - destruct IH as (y_n & Hy_n & Hval); [lia|].
    destruct (Hsteps (Z.of_nat (S n))) as (t_n & y_n' & _ & Hy_n' & Hnext); [lia|].
    rewrite Nat2Z.id in Hy_n'.
    replace (Z.to_nat (Z.of_nat (S n) + 1)) with (S (S n)) in Hnext by lia.
    assert (y_n' = y_n) as -> by congruence.
    eexists. split; [exact Hnext|].
    rewrite Qpower_succ_nat. unfold linear_rhs. rewrite Hval. ring.
Qed.

(** X18. On the linear equation [y' = lam * y] the Euler stepper returns,
    from index 1 on, the geometric sequence seeded by [y1]:
    [y[n] = y1 * (1 + z)^(n - 1)] with [z = (T / N) * lam], for
    [n = 1 .. N]. *)
Theorem euler_linear_equation (T : Q) (N : Z) (y0 y1 lam : Q) :
  1 ≤ N →
  ∃ t y,
    perform_time_stepping1 T N y0 y1 (linear_rhs lam) = Ok (t, y) ∧
    ∀ n : nat, Z.of_nat (S n) ≤ N →
      ∃ y_n, y !! S n = Some y_n ∧
        (y_n == y1 * (1 + T / inject_Z N * lam) ^ Z.of_nat n)%Q.
Proof.
  intros HN.
  destruct (perform_time_stepping1_spec T N y0 y1 (linear_rhs lam) HN)
    as (t & y & Hrun & _ & Hinv).
  exists t, y. split; [done|]. intros n Hn.
  by apply (euler_inv_linear T N y0 y1 lam t y n).
Qed.

Lemma euler_linear_equation_witness :
  1 ≤ 10 ∧
  ∃ t y, perform_time_stepping1 5 10 1 (5 # 4) (linear_rhs 1) = Ok (t, y) ∧
    ∃ y_n, y !! 10%nat = Some y_n ∧
      (y_n == (5 # 4) * (1 + 5 / inject_Z 10 * 1) ^ 9)%Q.
Proof.
  split; [lia|].
  destruct (euler_linear_equation 5 10 1 (5 # 4) 1) as (t & y & Hrun & Hval); [lia|].
  exists t, y. split; [exact Hrun|]. apply (Hval 9%nat). lia.
Defined.

(** X19. When the derivative does not depend on [y], a Runge-Kutta step is
    Simpson's rule on [[t_n, t_n + h]]:
    [y[n+1] = y[n] + h * (g(t_n) + 4 * g(t_n + h/2) + g(t_n + h)) / 6]. *)
Theorem rk4_quadrature_is_simpson (T : Q) (N M : Z) (y0 : Q) (g : Q → Q) :
  1 ≤ N →
  ∃ t y,
    perform_time_stepping2 T N M y0 (λ t_n _, g t_n) = Ok (t, y) ∧
    ∀ n, 0 ≤ n ≤ N - 1 →
      ∃ t_n y_n y_next,
        let h := (T / inject_Z N)%Q in
        t !! Z.to_nat n = Some t_n ∧
        y !! Z.to_nat n = Some y_n ∧
        y !! Z.to_nat (n + 1) = Some y_next ∧
        (y_next == y_n + h * (g t_n + 4 * g (t_n + h / 2) + g (t_n + h)) / 6)%Q.
Proof.
  intros HN.
  destruct (perform_time_stepping2_spec T N M y0 (λ t_n _, g t_n) HN)
    as (t & y & Hrun & _ & _ & _ & Hsteps).
  exists t, y. split; [done|]. intros n Hn.
  destruct (Hsteps n) as (t_n & y_n & Ht & Hy & Hnext); [lia|].
  exists t_n, y_n. eexists. simpl.
  split_and!; [exact Ht|exact Hy|exact Hnext|].
  unfold rk4_update. field. apply inject_Z_nonzero. lia.
Qed.

Lemma rk4_quadrature_is_simpson_witness :
  1 ≤ 4 ∧
  ∃ t y, perform_time_stepping2 1 4 0 0 (λ t_n _, t_n * t_n)%Q = Ok (t, y) ∧
    ∃ t_n y_n y_next,
      t !! 0%nat = Some t_n ∧ y !! 0%nat = Some y_n ∧ y !! 1%nat = Some y_next ∧
      (y_next ==
         y_n + (1 / inject_Z 4)
               * (t_n * t_n
                  + 4 * ((t_n + 1 / inject_Z 4 / 2) * (t_n + 1 / inject_Z 4 / 2))
                  + (t_n + 1 / inject_Z 4) * (t_n + 1 / inject_Z 4)) / 6)%Q.
Proof.
  split; [lia|].
  destruct (rk4_quadrature_is_simpson 1 4 0 0 (λ v, v * v)%Q) as (t & y & Hrun & Hval);
    [lia|].
  exists t, y. split; [exact Hrun|]. apply (Hval 0). lia.
Defined.

(** ** square_root.py: the coefficients of the series *)









(** ** legendre.py: plotting *)

Lemma np_linspace_length (start stop : Q) (num : Z) :
  0 ≤ num →
  ∃ t, np_linspace start stop num = Ok t ∧ length t = Z.to_nat num.
Proof.
  intros Hnum. unfold np_linspace.
  replace (num <? 0) with false by (symmetry; apply Z.ltb_ge; lia).
  eexists. split; [reflexivity|].
  destruct (1 <? num), (0 <? num - 1); try destruct (Qeq_bool _ _);
    rewrite ?length_insert, !length_fmap, length_seqZ; done.
Qed.

Lemma compute_legendre_negative (x : list Q) (p : Z) :
  p < 0 →
  compute_legendre x p = Raise (if p =? -1 then IndexError else ValueError).
Proof.
  intros Hp. unfold compute_legendre, np_zeros2.
  destruct (Z.eqb_spec p (-1)) as [->|Hne].
  - by replace (Z.of_nat (length x) <? 0) with false
      by (symmetry; apply Z.ltb_ge; lia).
  - by replace (p + 1 <? 0) with true by (symmetry; apply Z.ltb_lt; lia).
Qed.

(** The plotting loop over rows that exist draws one curve per row. *)
Lemma plot_rows_range (x : list Q) (tbl : list (list Q)) (row : Z → list Q)
    (lo hi : Z) (calls : list plt_call) :
  0 ≤ lo →
  (∀ n, lo ≤ n < hi → tbl !! Z.to_nat n = Some (row n)) →
  plot_rows x tbl (py_range lo hi) calls =
    (calls ++ ((λ n, plt_plot x (row n) (curve_label n)) <$> py_range lo hi), Ok ()).
Proof.
  remember (Z.to_nat (hi - lo)) as k eqn:Hk.
  revert lo calls Hk. induction k as [|k IH]; intros lo calls Hk Hlo Hrows.
  - rewrite py_range_empty by lia. simpl. by rewrite app_nil_r.
  - rewrite py_range_cons by lia. simpl.
    rewrite (getitem_Some tbl lo (row lo)) by (try apply Hrows; lia).
    rewrite IH by (try lia; intros; apply Hrows; lia).
    by rewrite <- app_assoc.
Qed.

(** X21. For a degree [p >= 0] [plot_legendre] does not raise; it opens a
    figure, draws exactly [p + 1] curves over the 500 samples of
    [np.linspace(-1, 1, 500)], curve [n] carrying the values of degree [n]
    and the label [L{n}(x)], for [n = 0 .. p] in this order, and then sets
    the title, the axis labels, the legend and the grid. *)
Theorem plot_legendre_draws_every_degree (p : Z) :
  0 ≤ p →
  ∃ x,
    np_linspace (-1) 1 500 = Ok x ∧
    length x = 500%nat ∧
    plot_legendre p =
      ([plt_figure]
       ++ ((λ n, plt_plot x (legendre_value (Z.to_nat n) <$> x) (curve_label n))
             <$> py_range 0 (p + 1))
       ++ [plt_title (figure_title p); plt_xlabel "x"; plt_ylabel "L(x)";
           plt_legend; plt_grid],
       Ok ()).
Proof.
  intros Hp.
  destruct (np_linspace_length (-1) 1 500) as (x & Hx & Hlen); [lia|].
  exists x. split; [done|]. split; [done|].
  unfold plot_legendre. rewrite Hx, compute_legendre_closed by done.
  rewrite (plot_rows_range x _ (λ n, legendre_value (Z.to_nat n) <$> x)); [|lia|].
  - by rewrite <- app_assoc.
  - intros n Hn. by rewrite list_lookup_fmap, lookup_seq_lt by lia.
Qed.

Lemma plot_legendre_draws_every_degree_witness :
  0 ≤ 1 ∧
  ∃ x, np_linspace (-1) 1 500 = Ok x ∧
    plot_legendre 1 =
      ([plt_figure; plt_plot x (legendre_value 0 <$> x) "L0(x)";
        plt_plot x (legendre_value 1 <$> x) "L1(x)";
        plt_title "Legendre Polynomials up to Degree 1"; plt_xlabel "x";
        plt_ylabel "L(x)"; plt_legend; plt_grid],
       Ok ()).
Proof.
  split; [lia|].
  destruct (plot_legendre_draws_every_degree 1) as (x & Hx & _ & Hplot); [lia|].
  exists x. split; [exact Hx|exact Hplot].
Defined.

(** X22. For a negative degree [plot_legendre] raises what
    [compute_legendre] raises, after it has opened the figure and before it
    draws anything: an empty figure is left behind. *)
Theorem plot_legendre_negative_degree (p : Z) :
  p < 0 →
  plot_legendre p =
    ([plt_figure], Raise (if p =? -1 then IndexError else ValueError)).
Proof.
  intros Hp.
  destruct (np_linspace_length (-1) 1 500) as (x & Hx & _); [lia|].
  unfold plot_legendre. by rewrite Hx, compute_legendre_negative.
Qed.

Lemma plot_legendre_negative_degree_witness :
  -1 < 0 ∧ plot_legendre (-1) = ([plt_figure], Raise IndexError).
Proof.
  split; [lia|]. apply (plot_legendre_negative_degree (-1)). lia.
Defined.
